(** * SendIt signaling and relay server: a shallow embedding of
      [src/server/python/main.py] and the properties proved about it.

    Conventions of the embedding.
    - Python [dict]s whose iteration order is observable (a room's [peers],
      a JSON object) are insertion-ordered association lists ([PyDict]);
      the registry tables ([rooms], [ip_connections], [files]) and the
      upload directory are [gmap]s.
    - [time.time()] and [time.monotonic()] readings are inputs of the
      operation that takes them, as exact rationals.
    - [secrets] is an entropy tape handed to the operation that draws from it.
    - A coroutine is run to completion as one state transformer that also
      returns the frames it sent; the transition system [step] at the end of
      the definitions splits the handlers at the [await]s that matter.
    - An exception is a value of the result type. *)

From Stdlib Require Import Ascii String QArith.
From stdpp Require Import gmap strings list fin_maps.

Set Warnings "-register-all".
Local Open Scope string_scope.
Local Open Scope list_scope.

(** ** Configuration ([class Config]) *)

Module Config.
Definition MAX_ROOMS : Z := 10000.
Definition MAX_PEERS_PER_ROOM : nat := 2.
Definition ROOM_TIMEOUT : Q := 3600.
Definition ROOM_CODE_LENGTH : nat := 6.
Definition MAX_FILE_SIZE : Z := 5 * 1024 * 1024 * 1024.
Definition CHUNK_SIZE : N := 1024 * 1024.
Definition RELAY_FILE_TTL : Q := 3600.
Definition MAX_MESSAGES_PER_SECOND : Q := 100.
Definition MAX_CONNECTIONS_PER_IP : Z := 10.
Definition LZ4_COMPRESSION_LEVEL : Z := 4.
Definition MIN_COMPRESS_SIZE : Z := 1024.
End Config.

(** ** Insertion-ordered dictionaries with string keys *)

Module PyDict.
Section ops.
Context {V : Type}.

(** [d.get(k)] *)
Fixpoint get (k : string) (d : list (string * V)) : option V :=
  match d with
  | [] => None
  | (k', v) :: d' => if String.eqb k k' then Some v else get k d'
  end.

(** [d[k] = v]: an existing key keeps its position, a new one goes last. *)
Fixpoint set (k : string) (v : V) (d : list (string * V)) : list (string * V) :=
  match d with
  | [] => [(k, v)]
  | (k', v') :: d' =>
      if String.eqb k k' then (k, v) :: d' else (k', v') :: set k v d'
  end.

(** What [d.pop(k, None)] leaves of [d]. *)
Fixpoint remove (k : string) (d : list (string * V)) : list (string * V) :=
  match d with
  | [] => []
  | (k', v') :: d' =>
      if String.eqb k k' then d' else (k', v') :: remove k d'
  end.

(** [d.pop(k, None)]: the popped value and the dictionary left. *)
Definition pop (k : string) (d : list (string * V)) : option V * list (string * V) :=
  (get k d, remove k d).

Definition keys (d : list (string * V)) : list string := map fst d.
Definition values (d : list (string * V)) : list V := map snd d.

(** Keys are unique, as in every dictionary Python builds. *)
Definition wf (d : list (string * V)) : Prop := NoDup (keys d).
End ops.
End PyDict.

(** ** JSON values and Python truthiness *)

Inductive json : Type :=
  | JNull
  | JBool (b : bool)
  | JNum (q : Q)
  | JStr (s : string)
  | JArr (l : list json)
  | JObj (m : list (string * json)).

(** [bool(v)] for a value decoded from JSON. *)
Definition truthy (v : json) : bool :=
  match v with
  | JNull => false
  | JBool b => b
  | JNum q => negb (Qeq_bool q 0)
  | JStr s => negb (String.eqb s "")
  | JArr l => match l with [] => false | _ => true end
  | JObj m => match m with [] => false | _ => true end
  end.

(** [bool(o)] for an optional value: [None] is falsy. *)
Definition truthy_opt (o : option json) : bool :=
  match o with
  | None => false
  | Some v => truthy v
  end.

(** [pid != v] where [pid] is a [str]: a value of another type never equals it. *)
Definition str_ne (pid : string) (v : json) : bool :=
  match v with
  | JStr s => negb (String.eqb pid s)
  | _ => true
  end.

(** ** Strings *)

Definition upper_ascii (c : ascii) : ascii :=
  let n := nat_of_ascii c in
  if (97 <=? n)%nat && (n <=? 122)%nat then ascii_of_nat (n - 32) else c.

(** [str.upper()] on the ASCII range. *)
Fixpoint upper (s : string) : string :=
  match s with
  | EmptyString => EmptyString
  | String c s' => String (upper_ascii c) (upper s')
  end.

(** [str.lower()] on the ASCII range. *)
Definition lower_ascii (c : ascii) : ascii :=
  let n := nat_of_ascii c in
  if (65 <=? n)%nat && (n <=? 90)%nat then ascii_of_nat (n + 32) else c.

Fixpoint lower (s : string) : string :=
  match s with
  | EmptyString => EmptyString
  | String c s' => String (lower_ascii c) (lower s')
  end.

(** [a < b] on clock readings. *)
Definition Qlt_bool (a b : Q) : bool := negb (Qle_bool b a).

(** ** Models ([class Peer], [class Room]) *)

(** A WebSocket object, by identity. *)
Definition WebSocket := nat.

Record Peer : Type := mkPeer {
  ws : WebSocket;
  peer_id : string;
  is_host : bool;
  room_code : string;
  ip_address : string;
  connected_at : Q;
  messages_sent : Z;
  last_message_time : Q;
}.

(** [Peer.__init__]; [t] is the [time.time()] it reads. *)
Definition Peer_init (w : WebSocket) (pid : string) (host : bool)
    (rc ip : string) (t : Q) : Peer :=
  {| ws := w; peer_id := pid; is_host := host; room_code := rc;
     ip_address := ip; connected_at := t; messages_sent := 0;
     last_message_time := 0 |}.

Record Room : Type := mkRoom {
  code : string;
  peers : list (string * Peer);
  created_at : Q;
  last_activity : Q;
  message_count : Z;
}.

(** [Room.__init__]; [t1], [t2] are its two [time.time()] readings. *)
Definition Room_init (c : string) (t1 t2 : Q) : Room :=
  {| code := c; peers := []; created_at := t1; last_activity := t2;
     message_count := 0 |}.

(** [Room.is_expired] at the instant [now]. *)
Definition is_expired (now : Q) (r : Room) : bool :=
  Qlt_bool Config.ROOM_TIMEOUT (now - last_activity r).

(** [Room.has_host] *)
Definition has_host (r : Room) : bool :=
  existsb is_host (PyDict.values (peers r)).

(** [Room.peer_count] *)
Definition peer_count (r : Room) : nat := length (peers r).

(** Number of members with [is_host] set. *)
Definition host_count (r : Room) : nat :=
  length (filter (λ p, is_host p = true) (PyDict.values (peers r))).

(** ** Room manager ([class RoomManager]) *)

(** The cleanup task handle and [start_time] play no part in any operation
    below. *)
Record RoomManager : Type := mkRoomManager {
  rooms : gmap string Room;
  ip_connections : gmap string Z;
  total_messages : Z;
  total_connections : Z;
  latencies : list Q;
}.

(** [RoomManager.__init__] *)
Definition RoomManager_init : RoomManager :=
  {| rooms := ∅; ip_connections := ∅; total_messages := 0;
     total_connections := 0; latencies := [] |}.

Definition with_rooms (m : gmap string Room) (st : RoomManager) : RoomManager :=
  {| rooms := m; ip_connections := ip_connections st;
     total_messages := total_messages st;
     total_connections := total_connections st;
     latencies := latencies st |}.

Definition with_ip_connections (m : gmap string Z) (st : RoomManager) : RoomManager :=
  {| rooms := rooms st; ip_connections := m;
     total_messages := total_messages st;
     total_connections := total_connections st;
     latencies := latencies st |}.

Definition with_peers (d : list (string * Peer)) (r : Room) : Room :=
  {| code := code r; peers := d; created_at := created_at r;
     last_activity := last_activity r; message_count := message_count r |}.

Definition with_code (c : string) (r : Room) : Room :=
  {| code := c; peers := peers r; created_at := created_at r;
     last_activity := last_activity r; message_count := message_count r |}.

(** What a coroutine puts on the wire. *)
Inductive frame : Type :=
  | Send (w : WebSocket) (data : json)
      (** [_send_json(ws, data)] / [ws.send_bytes(orjson.dumps(data))] *)
  | Close (w : WebSocket) (close_code : Z) (reason : string)
      (** [ws.close(code, reason)] *).

(** How a call ends. [Starved]: the entropy tape ran out inside the
    [while True] of [generate_room_code]. *)
Inductive outcome (A : Type) : Type :=
  | Return (a : A)
  | HTTPException (status_code : Z) (detail : string)
  | Starved.
Arguments Return {A} a.
Arguments HTTPException {A} status_code detail.
Arguments Starved {A}.

Definition jnat (n : nat) : json := JNum (inject_Z (Z.of_nat n)).

(** *** Code generator *)

Definition chars : list ascii :=
  list_ascii_of_string "ABCDEFGHJKLMNPQRSTUVWXYZ23456789".

(** [secrets.choice(seq)] with [r] the entropy behind its [randbelow]; the
    default of [nth] is out of reach on a non-empty [seq]. *)
Definition choice (seq : list ascii) (r : nat) : ascii :=
  nth (r mod length seq) seq "000"%char.

(** One pass of the loop body per unit of fuel; each pass draws
    [ROOM_CODE_LENGTH] symbols from the tape. *)
Fixpoint generate_room_code_loop (fuel : nat) (m : gmap string Room)
    (tape : list nat) : option string :=
  match fuel with
  | O => None
  | S fuel' =>
      if (length tape <? Config.ROOM_CODE_LENGTH)%nat then None
      else
        let code :=
          string_of_list_ascii
            (map (choice chars) (take Config.ROOM_CODE_LENGTH tape)) in
        match m !! code with
        | None => Some code
        | Some _ =>
            generate_room_code_loop fuel' m (drop Config.ROOM_CODE_LENGTH tape)
        end
  end.

(** [RoomManager.generate_room_code]: [None] when the tape is used up before
    a free code is drawn. The fuel covers every pass the tape can feed. *)
Definition generate_room_code (st : RoomManager) (tape : list nat) : option string :=
  generate_room_code_loop (S (length tape)) (rooms st) tape.

(** *** Registry operations *)

(** [RoomManager.create_room] *)
Definition create_room (st : RoomManager) (tape : list nat) (t1 t2 : Q)
    : outcome (string * RoomManager) :=
  if (Z.of_nat (size (rooms st)) >=? Config.MAX_ROOMS)%Z then
    HTTPException 503 "Server at capacity"
  else
    match generate_room_code st tape with
    | None => Starved
    | Some c =>
        Return (c, with_rooms (<[c := Room_init c t1 t2]> (rooms st)) st)
    end.

(** [RoomManager.get_room]; [now] is the clock [is_expired] reads. *)
Definition get_room (st : RoomManager) (c : string) (now : Q)
    : option Room * RoomManager :=
  match rooms st !! upper c with
  | Some room =>
      if is_expired now room then
        (None, with_rooms (delete (upper c) (rooms st)) st)
      else (Some room, st)
  | None => (None, st)
  end.

(** [RoomManager.close_room]: errors of [ws.close] are swallowed. *)
Definition close_room (st : RoomManager) (c : string) : RoomManager * list frame :=
  match rooms st !! upper c with
  | Some room =>
      (with_rooms (delete (upper c) (rooms st)) st,
       map (λ p, Close (ws p) 1000 "Room closed") (PyDict.values (peers room)))
  | None => (st, [])
  end.

(** Reading [d[k]] on a [defaultdict(int)] stores the default under a
    missing key. *)
Definition dd_read (k : string) (d : gmap string Z) : Z * gmap string Z :=
  match d !! k with
  | Some n => (n, d)
  | None => (0%Z, <[k := 0%Z]> d)
  end.

(** [RoomManager.check_ip_limit] *)
Definition check_ip_limit (st : RoomManager) (ip : string) : bool * RoomManager :=
  let '(n, d) := dd_read ip (ip_connections st) in
  ((n <? Config.MAX_CONNECTIONS_PER_IP)%Z, with_ip_connections d st).

(** [RoomManager.check_rate_limit]; [now] is its [time.time()]. *)
Definition check_rate_limit (now : Q) (p : Peer) : bool * Peer :=
  if Qlt_bool (now - last_message_time p) (1 / Config.MAX_MESSAGES_PER_SECOND)
  then (false, p)
  else
    (true,
     {| ws := ws p; peer_id := peer_id p; is_host := is_host p;
        room_code := room_code p; ip_address := ip_address p;
        connected_at := connected_at p;
        messages_sent := messages_sent p + 1;
        last_message_time := now |}).

(** [RoomManager.add_peer]. The methods that take a [room] object return the
    object as they leave it; the caller stores it back in the registry slot
    that references it. *)
Definition add_peer (room : Room) (st : RoomManager) (peer : Peer) (now : Q)
    : Room * RoomManager * list frame :=
  let room' :=
    {| code := code room;
       peers := PyDict.set (peer_id peer) peer (peers room);
       created_at := created_at room;
       last_activity := now;
       message_count := message_count room |} in
  let '(n, ips) := dd_read (ip_address peer) (ip_connections st) in
  let st' :=
    {| rooms := rooms st;
       ip_connections := <[ip_address peer := (n + 1)%Z]> ips;
       total_messages := total_messages st;
       total_connections := (total_connections st + 1)%Z;
       latencies := latencies st |} in
  let others :=
    filter (λ kv, negb (String.eqb (fst kv) (peer_id peer)) = true) (peers room') in
  let joined :=
    map (λ kv, Send (ws (snd kv))
                 (JObj [("type", JStr "peer-joined");
                        ("peerId", JStr (peer_id peer));
                        ("isHost", JBool (is_host peer));
                        ("peerCount", jnat (peer_count room'))])) others in
  let ack :=
    Send (ws peer)
      (JObj [("type", JStr "room-joined");
             ("roomCode", JStr (code room'));
             ("peerId", JStr (peer_id peer));
             ("isHost", JBool (is_host peer));
             ("peerCount", jnat (peer_count room'));
             ("peers", JArr (map JStr (PyDict.keys others)))]) in
  (room', st', joined ++ [ack]).

(** [RoomManager.remove_peer]; [key] is the registry slot that references the
    object [room]. *)
Definition remove_peer (st : RoomManager) (key : string) (room : Room)
    (pid : string) : RoomManager * list frame :=
  match PyDict.get pid (peers room) with
  | None => (st, [])
  | Some peer =>
      let room' := with_peers (PyDict.remove pid (peers room)) room in
      let '(n, ips) := dd_read (ip_address peer) (ip_connections st) in
      let st1 :=
        with_rooms (<[key := room']> (rooms st))
          (with_ip_connections (<[ip_address peer := Z.max 0 (n - 1)]> ips) st) in
      let left :=
        map (λ p, Send (ws p)
                    (JObj [("type", JStr "peer-left");
                           ("peerId", JStr pid);
                           ("peerCount", jnat (peer_count room'))]))
            (PyDict.values (peers room')) in
      if (peer_count room' =? 0)%nat then
        let '(st2, closed) := close_room st1 (code room') in
        (st2, left ++ closed)
      else (st1, left)
  end.

(** [target_id and pid != target_id], where [target_id] is what
    [message.get("targetId")] returned. *)
Definition targets_other (target_id : option json) (pid : string) : bool :=
  match target_id with
  | Some t => truthy t && str_ne pid t
  | None => false
  end.

(** The body of the [for] loop of [relay_message]: the dictionary [message]
    is stamped in place before each send, so it is threaded through. *)
Fixpoint relay_loop (sender_id : string) (target_id : option json)
    (ps : list (string * Peer)) (message : list (string * json))
    : list (string * json) * list frame :=
  match ps with
  | [] => (message, [])
  | (pid, peer) :: ps' =>
      if String.eqb pid sender_id then
        relay_loop sender_id target_id ps' message
      else if targets_other target_id pid then
        relay_loop sender_id target_id ps' message
      else
        let message' := PyDict.set "senderId" (JStr sender_id) message in
        let '(m, fs) := relay_loop sender_id target_id ps' message' in
        (m, Send (ws peer) (JObj message') :: fs)
  end.

(** [self._latencies.append(latency)] and the trim to the last 500. *)
Definition record_latency (l : list Q) (latency : Q) : list Q :=
  let l' := l ++ [latency] in
  if (1000 <? length l')%nat then drop (length l' - 500) l' else l'.

(** [RoomManager.relay_message]. [now] is [time.time()], [t0] and [t1] the two
    [time.monotonic()] readings. The frames are [None] when [message] is not
    an object: [message.get] raises after the counters are bumped, and the
    coroutine returns nothing in either case. *)
Definition relay_message (room : Room) (st : RoomManager) (sender_id : string)
    (message : json) (now t0 t1 : Q) : Room * RoomManager * option (list frame) :=
  let room' :=
    {| code := code room; peers := peers room; created_at := created_at room;
       last_activity := now; message_count := (message_count room + 1)%Z |} in
  let st1 :=
    {| rooms := rooms st; ip_connections := ip_connections st;
       total_messages := (total_messages st + 1)%Z;
       total_connections := total_connections st;
       latencies := latencies st |} in
  match message with
  | JObj m =>
      let target_id := PyDict.get "targetId" m in
      let '(_, fs) := relay_loop sender_id target_id (peers room') m in
      let st2 :=
        {| rooms := rooms st1; ip_connections := ip_connections st1;
           total_messages := total_messages st1;
           total_connections := total_connections st1;
           latencies := record_latency (latencies st1) ((t1 - t0) * 1000) |} in
      (room', st2, Some fs)
  | _ => (room', st1, None)
  end.

(** One sweep of [_cleanup_loop]; [now] stands for the clock readings of the
    scan. The registry is walked in key order, not in insertion order: the
    order only permutes the close frames. *)
Definition cleanup_sweep (st : RoomManager) (now : Q) : RoomManager * list frame :=
  let expired :=
    map fst (filter (λ kv, is_expired now (snd kv) = true) (map_to_list (rooms st))) in
  foldl (λ acc c, let '(st', fs) := close_room (fst acc) c in (st', snd acc ++ fs))
        (st, []) expired.

(** ** Signaling endpoint ([websocket_signaling]) *)

Definition error_frame (w : WebSocket) (msg : string) : frame :=
  Send w (JObj [("type", JStr "error"); ("message", JStr msg)]).

(** The clock readings of one admission, in program order. *)
Record admit_clock : Type := mkAdmitClock {
  t_lookup : Q;     (** [is_expired] inside [get_room] *)
  t_created : Q;    (** [Room.__init__], [created_at] *)
  t_activity : Q;   (** [Room.__init__], [last_activity] *)
  t_connected : Q;  (** [Peer.__init__] *)
  t_joined : Q;     (** [add_peer] *)
}.

(** How the admission ends. [Joined key peer]: the handler enters its receive
    loop holding the room referenced by slot [key] and the object [peer].
    [KeyError] stands for the two dictionary reads of the host branch that
    cannot miss. *)
Inductive admission : Type :=
  | Joined (key : string) (peer : Peer)
  | Refused (close_code : Z)
  | Failed (status_code : Z)
  | Stalled
  | KeyError.

(** The tail of the admission once the room is at hand, from the capacity
    check to the return of [add_peer]. [room_code] is the handler's
    upper-cased variable, [host] the value of [is_host.lower() == "true"],
    [key] the registry slot that references [room]. *)
Definition ws_join (st : RoomManager) (w : WebSocket)
    (client_ip room_code : string) (peer_id : option string) (host : bool)
    (token : string) (clk : admit_clock) (key : string) (room : Room)
    : RoomManager * list frame * admission :=
  if (Config.MAX_PEERS_PER_ROOM <=? peer_count room)%nat then
    (st, [error_frame w "Room is full"; Close w 4003 "Room full"], Refused 4003)
  else
    let pid :=
      match peer_id with
      | Some s => if String.eqb s "" then token else s
      | None => token
      end in
    let peer := Peer_init w pid host room_code client_ip (t_connected clk) in
    let '(room', st1, fs) := add_peer room st peer (t_joined clk) in
    (with_rooms (<[key := room']> (rooms st1)) st1, fs, Joined key peer).

(** [websocket_signaling] from [room_code = room_code.upper()] to the return of
    [add_peer]: no [await] suspends this stretch before the peer is in the
    room. [tape] feeds [generate_room_code], [token] is the
    [secrets.token_urlsafe(8)] used when no peer id came with the request. *)
Definition ws_admit (st : RoomManager) (w : WebSocket)
    (client_ip room_code : string) (peer_id : option string) (is_host : string)
    (tape : list nat) (token : string) (clk : admit_clock)
    : RoomManager * list frame * admission :=
  let room_code := upper room_code in
  let host := String.eqb (lower is_host) "true" in
  let '(found, st1) := get_room st room_code (t_lookup clk) in
  match found with
  | Some room =>
      ws_join st1 w client_ip room_code peer_id host token clk
        (upper room_code) room
  | None =>
      if host then
        match create_room st1 tape (t_created clk) (t_activity clk) with
        | Return (room_code_new, st2) =>
            let renamed :=
              match rooms st2 !! room_code with
              | None =>
                  match rooms st2 !! room_code_new with
                  | Some fresh =>
                      Some (with_rooms
                              (<[room_code := with_code room_code fresh]>
                                 (delete room_code_new (rooms st2))) st2)
                  | None => None
                  end
              | Some _ => Some st2
              end in
            match renamed with
            | Some st3 =>
                match rooms st3 !! room_code with
                | Some room =>
                    ws_join st3 w client_ip room_code peer_id host token clk
                      room_code room
                | None => (st3, [], KeyError)
                end
            | None => (st2, [], KeyError)
            end
        | HTTPException status _ => (st1, [], Failed status)
        | Starved => (st1, [], Stalled)
        end
      else
        (st1, [error_frame w "Room not found"; Close w 4004 "Room not found"],
         Refused 4004)
  end.


(** One turn of the receive loop on a decoded frame, for a handler whose room
    is still the one in slot [key] and whose peer is still the one the room
    holds under [pid]; [None] otherwise. The flag tells whether the loop goes
    on: an exception out of [relay_message] ends it. *)
Definition ws_receive (st : RoomManager) (key pid : string) (message : json)
    (t_limit now t0 t1 : Q) : option (RoomManager * list frame * bool) :=
  match rooms st !! key with
  | Some room =>
      match PyDict.get pid (peers room) with
      | Some peer =>
          let '(ok, peer') := check_rate_limit t_limit peer in
          if ok then
            let room1 := with_peers (PyDict.set pid peer' (peers room)) room in
            let '(room2, st2, sent) :=
              relay_message room1 st pid message now t0 t1 in
            Some (with_rooms (<[key := room2]> (rooms st2)) st2,
                  default [] sent,
                  match sent with Some _ => true | None => false end)
          else Some (st, [error_frame (ws peer) "Rate limited"], true)
      | None => None
      end
  | None => None
  end.

(** The [finally] block; [room_code] is the handler's upper-cased variable. *)
Definition ws_finally (st : RoomManager) (room_code pid : string) (now : Q)
    : RoomManager * list frame :=
  let '(found, st1) := get_room st room_code now in
  match found with
  | Some room => remove_peer st1 (upper room_code) room pid
  | None => (st1, [])
  end.

(** ** The registry as a transition system

    One step is one stretch of code that runs without suspension, or a whole
    coroutine whose later stretches are steps of their own. Handlers that
    were suspended while their room or peer left the registry act on detached
    objects; [step_relay_stale_peer] and [step_relay_detached] give them any
    object, which only adds transitions. *)
Inductive step : RoomManager → RoomManager → Prop :=
  | step_create st tape t1 t2 c st' :
      create_room st tape t1 t2 = Return (c, st') → step st st'
  | step_lookup st c now r st' :
      get_room st c now = (r, st') → step st st'
  | step_check_ip st ip ok st' :
      check_ip_limit st ip = (ok, st') → step st st'
  | step_admit st w ip rc pid host tape token clk st' fs res :
      ws_admit st w ip rc pid host tape token clk = (st', fs, res) → step st st'
  | step_receive st key pid message t_limit now t0 t1 st' fs continue :
      ws_receive st key pid message t_limit now t0 t1 = Some (st', fs, continue) →
      step st st'
  | step_relay_stale_peer st key room pid message now t0 t1 room' st' sent :
      rooms st !! key = Some room →
      relay_message room st pid message now t0 t1 = (room', st', sent) →
      step st (with_rooms (<[key := room']> (rooms st')) st')
  | step_relay_detached st room pid message now t0 t1 room' st' sent :
      relay_message room st pid message now t0 t1 = (room', st', sent) →
      step st st'
  | step_finally st rc pid now st' fs :
      ws_finally st rc pid now = (st', fs) → step st st'
  | step_close st c st' fs :
      close_room st c = (st', fs) → step st st'
  | step_sweep st now st' fs :
      cleanup_sweep st now = (st', fs) → step st st'.

(** States the server can be in, from start-up. *)
Definition reachable (st : RoomManager) : Prop := rtc step RoomManager_init st.

(** [Σ ipConnections.values()] *)
Definition ip_total (st : RoomManager) : Z :=
  map_fold (λ _ n acc, (n + acc)%Z) 0%Z (ip_connections st).

(** [Σ_rooms peerCount] *)
Definition peer_total (st : RoomManager) : Z :=
  map_fold (λ _ r acc, (Z.of_nat (peer_count r) + acc)%Z) 0%Z (rooms st).

(** ** Relay store ([class FileRelay]) *)

Definition bytes : Type := list Byte.byte.

(** *** The two native libraries, as interfaces

    A context object is mutated by each call in Python; here each call
    returns the context it leaves. *)

(** [lz4.frame]'s streaming API. The tuple [decompress_chunk] returns is
    given as its first component, the decompressed data, and the list of the
    components that follow it; [None] when the call raises. *)
Class Lz4Frame : Type := {
  cctx : Type;
  dctx : Type;
  create_compression_context : cctx;
  compress_begin : cctx → Z → cctx * bytes;
  compress_chunk : cctx → bytes → cctx * bytes;
  compress_flush : cctx → bytes;
  create_decompression_context : dctx;
  decompress_chunk : dctx → bytes → option (dctx * bytes * list nat);
}.

(** [xxhash.xxh64] *)
Class XxHash : Type := {
  hasher : Type;
  xxh64 : hasher;
  update : hasher → bytes → hasher;
  hexdigest : hasher → string;
}.

Module FileMetadata.
Record t : Type := mk {
  id : string;
  name : string;
  size : Z;
  mime_type : string;
  checksum : option string;
  compressed : bool;
  original_size : option Z;
  room_code : option string;
  uploaded_at : Q;
  expires_at : option Q;
}.
End FileMetadata.

(** Starlette's [UploadFile]: the declared [size] comes from the request and
    is independent of the bytes [read] hands out. *)
Record UploadFile : Type := mkUploadFile {
  filename : option string;
  content_type : option string;
  declared_size : option Z;
  content : bytes;
}.

(** [disk] is the content of [upload_dir], by file name. *)
Record FileRelay : Type := mkFileRelay {
  files : gmap string FileMetadata.t;
  total_bytes_relayed : Z;
  disk : gmap string bytes;
}.

(** [str.rfind(c)] *)
Fixpoint rfind (c : ascii) (s : string) : option nat :=
  match s with
  | EmptyString => None
  | String a s' =>
      match rfind c s' with
      | Some i => Some (S i)
      | None => if Ascii.eqb a c then Some 0%nat else None
      end
  end.

(** [PurePath.suffix] of a file name. *)
Definition suffix (nm : string) : string :=
  match rfind "." nm with
  | Some i =>
      if (0 <? i)%nat && (i <? String.length nm - 1)%nat
      then substring i (String.length nm - i) nm
      else ""
  | None => ""
  end.

(** [PurePath.with_suffix] on the file name. *)
Definition with_suffix (nm suf : string) : string :=
  let old := suffix nm in
  if String.eqb old "" then String.append nm suf
  else String.append (substring 0 (String.length nm - String.length old) nm) suf.

(** The alphabet of [secrets.token_urlsafe]. *)
Definition urlsafe_chars : list ascii :=
  list_ascii_of_string
    "ABCDEFGHIJKLMNOPQRSTUVWXYZabcdefghijklmnopqrstuvwxyz0123456789-_".

Definition urlsafe_token (s : string) : Prop :=
  Forall (λ c, c ∈ urlsafe_chars) (list_ascii_of_string s).

(** [while chunk := await f.read(n)]: the chunks read until the first empty
    one, one read per unit of fuel. *)
Fixpoint read_loop (fuel n : nat) (data : bytes) : list bytes :=
  match fuel with
  | O => []
  | S fuel' =>
      match take n data with
      | [] => []
      | chunk => chunk :: read_loop fuel' n (drop n data)
      end
  end.

(** Every chunk a reader gets from [data]; the fuel covers the longest run,
    one byte per read. *)
Definition read_chunks (n : nat) (data : bytes) : list bytes :=
  read_loop (S (length data)) n data.

Definition chunk_size : nat := N.to_nat Config.CHUNK_SIZE.

(** [x and x > limit] for an optional integer [x]. *)
Definition declared_over (x : option Z) (limit : Z) : bool :=
  match x with
  | Some n => negb (n =? 0)%Z && (limit <? n)%Z
  | None => false
  end.

(** [x or d] for an optional string [x]: [None] and the empty string are
    falsy. *)
Definition str_or (x : option string) (d : string) : string :=
  match x with
  | Some s => if String.eqb s "" then d else s
  | None => d
  end.

Section relay.
Context `{Lz4Frame} `{XxHash}.

(** State of the ingestion loops: [original_size], [hasher], the
    compression context and what has been written to the open file. *)
Definition compress_step (acc : Z * hasher * cctx * bytes) (chunk : bytes)
    : Z * hasher * cctx * bytes :=
  let '(n, h, ctx, written) := acc in
  let '(ctx', compressed_chunk) := compress_chunk ctx chunk in
  ((n + Z.of_nat (length chunk))%Z, update h chunk, ctx',
   written ++ compressed_chunk).

Definition raw_step (acc : Z * hasher * bytes) (chunk : bytes)
    : Z * hasher * bytes :=
  let '(n, h, written) := acc in
  ((n + Z.of_nat (length chunk))%Z, update h chunk, written ++ chunk).

(** The compressed branch of [store_file]: what it counts, hashes and
    leaves in [<file_id>.lz4]. *)
Definition ingest_compressed (chunks : list bytes) : Z * hasher * bytes :=
  let '(ctx, header) :=
    compress_begin create_compression_context Config.LZ4_COMPRESSION_LEVEL in
  let '(n, h, ctx', written) :=
    foldl compress_step (0%Z, xxh64, ctx, header) chunks in
  let footer := compress_flush ctx' in
  (n, h, written ++ footer).

(** The raw branch. *)
Definition ingest_raw (chunks : list bytes) : Z * hasher * bytes :=
  foldl raw_step (0%Z, xxh64, []) chunks.

(** [FileRelay.store_file]. [file_id] is what [generate_file_id] returned;
    [t_expires] and [t_uploaded] are the two clock readings of the
    [FileMetadata] construction. *)
Definition store_file (st : FileRelay) (file : UploadFile)
    (room_code : option string) (compress : bool) (file_id : string)
    (t_expires t_uploaded : Q) : FileMetadata.t * FileRelay :=
  let file_path := file_id in
  let chunks := read_chunks chunk_size (content file) in
  let is_compressed :=
    compress && declared_over (declared_size file) Config.MIN_COMPRESS_SIZE in
  let stored_path :=
    if is_compressed then with_suffix file_path ".lz4" else file_path in
  let '(original_size, h, stored) :=
    if is_compressed then ingest_compressed chunks else ingest_raw chunks in
  let metadata :=
    {| FileMetadata.id := file_id;
       FileMetadata.name := str_or (filename file) "unknown";
       FileMetadata.size := Z.of_nat (length stored);
       FileMetadata.mime_type :=
         str_or (content_type file) "application/octet-stream";
       FileMetadata.checksum := Some (hexdigest h);
       FileMetadata.compressed := is_compressed;
       FileMetadata.original_size := Some original_size;
       FileMetadata.room_code := room_code;
       FileMetadata.uploaded_at := t_uploaded;
       FileMetadata.expires_at :=
         Some (t_expires + Config.RELAY_FILE_TTL)%Q |} in
  (metadata,
   {| files := <[file_id := metadata]> (files st);
      total_bytes_relayed := (total_bytes_relayed st + original_size)%Z;
      disk := <[stored_path := stored]> (disk st) |}).

(** The decompressing branch of [file_iterator]: each chunk read from disk
    goes through [decompress_chunk], whose result is unpacked into
    [decompressed, _]; a non-empty [decompressed] is yielded. An exception,
    of the call or of the unpacking of a tuple that is not a pair, yields
    the chunk as read. *)
Fixpoint decompress_loop (ctx : dctx) (chunks : list bytes) : list bytes :=
  match chunks with
  | [] => []
  | chunk :: rest =>
      match decompress_chunk ctx chunk with
      | Some (ctx', decompressed, [_]) =>
          match decompressed with
          | [] => decompress_loop ctx' rest
          | _ => decompressed :: decompress_loop ctx' rest
          end
      | Some (ctx', _, _) => chunk :: decompress_loop ctx' rest
      | None => chunk :: decompress_loop ctx rest
      end
  end.

(** [FileRelay.stream_file] together with the run of the iterator it
    returns: the chunks of the response body, and the metadata. *)
Definition stream_file (st : FileRelay) (file_id : string) (decompress : bool)
    : outcome (list bytes * FileMetadata.t) :=
  match files st !! file_id with
  | None => HTTPException 404 "File not found"
  | Some meta =>
      let file_path :=
        if FileMetadata.compressed meta
        then String.append file_id ".lz4" else file_id in
      match disk st !! file_path with
      | None => HTTPException 404 "File not found on disk"
      | Some data =>
          let chunks := read_chunks chunk_size data in
          if FileMetadata.compressed meta && decompress then
            Return (decompress_loop create_decompression_context chunks, meta)
          else Return (chunks, meta)
      end
  end.
End relay.

(** [FileRelay.delete_file]. [unlink_fails] says whether [path.unlink] raises
    an error other than the file being absent; the [except] swallows it and
    the file stays. *)
Definition delete_file (st : FileRelay) (file_id : string) (unlink_fails : bool)
    : FileRelay :=
  match files st !! file_id with
  | Some meta =>
      let path :=
        if FileMetadata.compressed meta
        then String.append file_id ".lz4" else file_id in
      {| files := delete file_id (files st);
         total_bytes_relayed := total_bytes_relayed st;
         disk := if unlink_fails then disk st else delete path (disk st) |}
  | None => st
  end.

(** [FileRelay.get_file_meta] *)
Definition get_file_meta (st : FileRelay) (file_id : string)
    : option FileMetadata.t :=
  files st !! file_id.

(** ** Relay endpoint *)

Definition jopt {A : Type} (f : A → json) (x : option A) : json :=
  match x with
  | Some a => f a
  | None => JNull
  end.

(** [upload_file] *)
Definition upload_file `{Lz4Frame} `{XxHash} (st : FileRelay)
    (file : UploadFile) (room_code : option string) (compress : bool)
    (file_id : string) (t_expires t_uploaded : Q) : outcome (json * FileRelay) :=
  if declared_over (declared_size file) Config.MAX_FILE_SIZE then
    HTTPException 413 "File too large"
  else
    let '(metadata, st') :=
      store_file st file room_code compress file_id t_expires t_uploaded in
    Return
      (JObj [("fileId", JStr (FileMetadata.id metadata));
             ("name", JStr (FileMetadata.name metadata));
             ("size", jopt (λ n, JNum (inject_Z n))
                        (FileMetadata.original_size metadata));
             ("compressed", JBool (FileMetadata.compressed metadata));
             ("compressedSize",
              if FileMetadata.compressed metadata
              then JNum (inject_Z (FileMetadata.size metadata)) else JNull);
             ("checksum", jopt JStr (FileMetadata.checksum metadata));
             ("expiresAt", jopt JNum (FileMetadata.expires_at metadata));
             ("downloadUrl",
              JStr (String.append "/api/relay/download/"
                      (FileMetadata.id metadata)))],
       st').

(** [delete_relay_file] *)
Definition delete_relay_file (st : FileRelay) (file_id : string)
    (unlink_fails : bool) : json * FileRelay :=
  (JObj [("deleted", JBool true)], delete_file st file_id unlink_fails).

(** ** Vocabulary of the statements

    Definitions the theorems are stated with, and the concrete data their
    witnesses and counterexamples run on. *)

(** What one draw of [ROOM_CODE_LENGTH] symbols looks like. *)
Definition drawn (tape : list nat) : string :=
  string_of_list_ascii (map (choice chars) (take Config.ROOM_CODE_LENGTH tape)).

(** Whether the loop of [relay_message] sends to the peer stored under [pid]. *)
Definition delivers (sender_id : string) (target_id : option json)
    (pid : string) : bool :=
  negb (String.eqb pid sender_id) && negb (targets_other target_id pid).

(** The frame every receiver gets: the message with [senderId] stamped. *)
Definition stamped (sender_id : string) (m : list (string * json)) : json :=
  JObj (PyDict.set "senderId" (JStr sender_id) m).

(** Every active room holds at most [MAX_PEERS_PER_ROOM] peers. *)
Definition rooms_ok (st : RoomManager) : Prop :=
  map_Forall (λ _ r, (peer_count r ≤ Config.MAX_PEERS_PER_ROOM)%nat) (rooms st).

(** States the concrete runs below pass through. *)
Module Run.
Definition clk0 : admit_clock := mkAdmitClock 0 0 0 0 0.
Definition tape : list nat := [0; 1; 2; 3; 4; 5]%nat.

(** [POST /api/rooms] on a fresh server. *)
Definition created : RoomManager :=
  match create_room RoomManager_init tape 0 0 with
  | Return (_, st) => st
  | _ => RoomManager_init
  end.

(** A host connects from 10.0.0.1 to [/ws/ab23cd?peer_id=alice&is_host=true]. *)
Definition checked : RoomManager :=
  (check_ip_limit RoomManager_init "10.0.0.1").2.
Definition hosted : RoomManager :=
  (ws_admit checked 1 "10.0.0.1" "ab23cd" (Some "alice") "true" tape
     "tok" clk0).1.1.

(** A second connection to the same room, also with [is_host=TRUE]. *)
Definition two_hosts : RoomManager :=
  (ws_admit hosted 2 "10.0.0.2" "AB23CD" (Some "bob") "TRUE" [] "tok" clk0).1.1.

(** More than an hour later the janitor sweeps, then the host's handler
    runs its [finally] block. *)
Definition late : Q := 3601.
Definition swept : RoomManager := (cleanup_sweep hosted late).1.
Definition cleaned : RoomManager := (ws_finally swept "AB23CD" "alice" late).1.
End Run.

(** The name of the on-disk object of a file. *)
Definition stored_name (file_id : string) (meta : FileMetadata.t) : string :=
  if FileMetadata.compressed meta then String.append file_id ".lz4" else file_id.

(** What the two libraries promise. *)
Section codec_laws.
Context `{Lz4Frame} `{XxHash}.

Definition encode_step (acc : cctx * bytes) (chunk : bytes) : cctx * bytes :=
  let '(ctx', out) := compress_chunk acc.1 chunk in (ctx', acc.2 ++ out).

(** The frame a compression context emits for a sequence of chunks:
    [compress_begin], one [compress_chunk] per chunk, [compress_flush]. *)
Definition lz4_frame (level : Z) (chunks : list bytes) : bytes :=
  let '(ctx, header) := compress_begin create_compression_context level in
  let '(ctx', body) := foldl encode_step (ctx, []) chunks in
  header ++ body ++ compress_flush ctx'.

(** What a decompression context gives back for a sequence of pieces, when
    no call raises. *)
Fixpoint lz4_decode (ctx : dctx) (pieces : list bytes) : option bytes :=
  match pieces with
  | [] => Some []
  | piece :: rest =>
      match decompress_chunk ctx piece with
      | Some (ctx', out, _) =>
          match lz4_decode ctx' rest with
          | Some outs => Some (out ++ outs)
          | None => None
          end
      | None => None
      end
  end.

(** [decompress_chunk] returns three values: the data, the count of bytes
    read and the end-of-frame flag; and a frame cut into non-empty pieces at
    any boundaries decodes, without an exception, to the bytes that were
    compressed. *)
Class Lz4FrameLaws : Prop := {
  decompress_chunk_triple ctx piece ctx' out more :
    decompress_chunk ctx piece = Some (ctx', out, more) →
    List.length more = 2%nat;
  lz4_round_trip (level : Z) (chunks pieces : list bytes) :
    Forall (λ c, c ≠ []) chunks →
    Forall (λ p, p ≠ []) pieces →
    concat pieces = lz4_frame level chunks →
    lz4_decode create_decompression_context pieces = Some (concat chunks)
}.

(** Hashing is incremental: feeding a hasher in pieces is feeding it the
    whole. *)
Class XxHashLaws : Prop := {
  update_nil (h : hasher) : update h [] = h;
  update_app (h : hasher) (a b : bytes) :
    update (update h a) b = update h (a ++ b)
}.

(** [xxhash.xxh64(data).hexdigest()] *)
Definition xxh64_hexdigest (data : bytes) : string :=
  hexdigest (update xxh64 data).
End codec_laws.
Arguments Lz4FrameLaws _ : clear implicits.
Arguments XxHashLaws _ : clear implicits.

(** A room with a host and two guests, for the concrete checks. *)
Module Demo.
Definition alice : Peer := Peer_init 1 "alice" true "AB23CD" "10.0.0.1" 0.
Definition bob : Peer := Peer_init 2 "bob" false "AB23CD" "10.0.0.2" 0.
Definition carol : Peer := Peer_init 3 "carol" false "AB23CD" "10.0.0.3" 0.

(** The host and one guest: a full room. *)
Definition pair : Room :=
  {| code := "AB23CD";
     peers := [("alice", alice); ("bob", bob)];
     created_at := 0; last_activity := 0; message_count := 0 |}.

Definition trio : Room :=
  {| code := "AB23CD";
     peers := [("alice", alice); ("bob", bob); ("carol", carol)];
     created_at := 0; last_activity := 0; message_count := 0 |}.

(** An offer for [bob] with a forged [senderId]. *)
Definition offer : list (string * json) :=
  [("type", JStr "offer"); ("senderId", JStr "mallory");
   ("targetId", JStr "bob")].

(** A message whose [targetId] is present and empty. *)
Definition blank_target : list (string * json) :=
  [("type", JStr "candidate"); ("targetId", JStr "")].
End Demo.

(** A codec and a hash for the concrete checks: frames are a one-byte header
    followed by the bytes themselves, and the hash state is what was fed.
    [codec] sits behind a binding whose [decompress_chunk] returns a pair. *)
Module Toy.
Definition codec : Lz4Frame :=
  {| cctx := unit;
     dctx := bool;
     create_compression_context := tt;
     compress_begin := λ _ _, (tt, [Byte.x04]);
     compress_chunk := λ _ chunk, (tt, chunk);
     compress_flush := λ _, [];
     create_decompression_context := false;
     decompress_chunk := λ seen piece,
       if seen then Some (true, piece, [List.length piece])
       else match piece with
            | [] => Some (false, [], [0%nat])
            | _ :: rest => Some (true, rest, [List.length piece])
            end |}.

(** The same codec behind a binding whose [decompress_chunk] returns a
    triple: data, bytes read, end-of-frame flag, as [lz4.frame] does. It
    meets the contracts. *)
Definition triple_codec : Lz4Frame :=
  {| cctx := unit;
     dctx := bool;
     create_compression_context := tt;
     compress_begin := λ _ _, (tt, [Byte.x04]);
     compress_chunk := λ _ chunk, (tt, chunk);
     compress_flush := λ _, [];
     create_decompression_context := false;
     decompress_chunk := λ seen piece,
       if seen then Some (true, piece, [List.length piece; 0%nat])
       else match piece with
            | [] => Some (false, [], [0%nat; 0%nat])
            | _ :: rest => Some (true, rest, [List.length piece; 0%nat])
            end |}.

Definition hash : XxHash :=
  {| hasher := bytes;
     xxh64 := [];
     update := λ h data, h ++ data;
     hexdigest := λ h, string_of_list_ascii (map ascii_of_byte h) |}.

Definition empty_relay : FileRelay :=
  {| files := ∅; total_bytes_relayed := 0; disk := ∅ |}.

(** An upload that declares 2000 bytes and carries three. *)
Definition declared : UploadFile :=
  {| filename := Some "notes.txt"; content_type := None;
     declared_size := Some 2000%Z;
     content := [Byte.x68; Byte.x69; Byte.x21] |}.

(** An upload with no declared size. *)
Definition undeclared : UploadFile :=
  {| filename := Some "notes.txt"; content_type := None;
     declared_size := None;
     content := [Byte.x68; Byte.x69; Byte.x21] |}.

Definition stored : FileMetadata.t * FileRelay :=
  @store_file codec hash empty_relay declared None true "h3Zk-Q_a" 0 0.

(** The same upload through the triple-returning binding. *)
Definition shipped : FileMetadata.t * FileRelay :=
  @store_file triple_codec hash empty_relay declared None true "h3Zk-Q_a" 0 0.
End Toy.

(** ** The file janitor ([FileRelay._cleanup_loop]) *)

(** [meta.expires_at and now > meta.expires_at]: an absent expiry and an
    expiry of 0.0 are falsy. *)
Definition file_expired (now : Q) (meta : FileMetadata.t) : bool :=
  match FileMetadata.expires_at meta with
  | Some t => negb (Qeq_bool t 0) && Qlt_bool t now
  | None => false
  end.

(** [for fid in expired: await self.delete_file(fid)] *)
Definition sweep (unlink_fails : string → bool) (st : FileRelay)
    (l : list string) : FileRelay :=
  foldl (λ acc fid, delete_file acc fid (unlink_fails fid)) st l.

(** One sweep of the loop: the expired ids are listed, then deleted one by
    one. [unlink_fails] tells for which ids [unlink] raises. The table is
    walked in key order, which only permutes the deletions. *)
Definition relay_cleanup_sweep (st : FileRelay) (now : Q)
    (unlink_fails : string → bool) : FileRelay :=
  let expired :=
    map fst (filter (λ kv, file_expired now kv.2 = true) (map_to_list (files st))) in
  sweep unlink_fails st expired.

(** ** Vocabulary of the further invariants *)

(** Every room sits in the slot of its own code, and the slot is in upper
    case. *)
Definition slots_ok (st : RoomManager) : Prop :=
  map_Forall (λ k r, code r = k ∧ upper k = k) (rooms st).

(** Members of a room that connected from address [a]. *)
Definition peers_from (a : string) (r : Room) : nat :=
  List.length (filter (λ p, ip_address p = a) (PyDict.values (peers r))).

(** Members of all active rooms that connected from address [a]. *)
Definition live_from (a : string) (m : gmap string Room) : Z :=
  map_fold (λ _ r acc, (Z.of_nat (peers_from a r) + acc)%Z) 0%Z m.

(** [ip_connections[a]], without the store of the default. *)
Definition counted (a : string) (st : RoomManager) : Z :=
  default 0%Z (ip_connections st !! a).

(** No address is counted for fewer connections than it has peers in rooms. *)
Definition counts_ok (st : RoomManager) : Prop :=
  ∀ a, (live_from a (rooms st) ≤ counted a st)%Z.

(** [a in ip_connections]: the defaultdict has an entry for the address. *)
Definition known (a : string) (st : RoomManager) : Prop :=
  is_Some (ip_connections st !! a).

(** The registry holds at most [MAX_ROOMS] rooms. *)
Definition capacity_ok (st : RoomManager) : Prop :=
  (Z.of_nat (size (rooms st)) ≤ Config.MAX_ROOMS)%Z.

(** ** REST lookup ([GET /api/rooms/{room_code}]) *)

(** [class RoomInfo] *)
Record RoomInfo : Type := mkRoomInfo {
  info_code : string;
  info_created_at : Q;
  info_peer_count : nat;
  info_has_host : bool;
}.

(** The endpoint [get_room]: it upper-cases the code before the lookup, which
    upper-cases it again. *)
Definition rest_get_room (st : RoomManager) (room_code : string) (now : Q)
    : outcome RoomInfo * RoomManager :=
  let '(found, st1) := get_room st (upper room_code) now in
  match found with
  | None => (HTTPException 404 "Room not found", st1)
  | Some room =>
      (Return {| info_code := code room;
                 info_created_at := created_at room;
                 info_peer_count := peer_count room;
                 info_has_host := has_host room |}, st1)
  end.

(** * Properties *)

(** ** Dictionaries *)

Module PyDictFacts.
Section facts.
Context {V : Type}.
Implicit Types (d : list (string * V)) (k : string) (v : V).

Lemma get_set_eq k v d : PyDict.get k (PyDict.set k v d) = Some v.
Proof.
  induction d as [|[k' v'] d IH]; simpl.
  - by rewrite String.eqb_refl.
  - destruct (String.eqb k k') eqn:E; simpl.
    + by rewrite String.eqb_refl.
    + by rewrite E.
Qed.

Lemma get_set_ne k k' v d :
  k ≠ k' → PyDict.get k' (PyDict.set k v d) = PyDict.get k' d.
Proof.
  intros Hne. induction d as [|[k0 v0] d IH]; simpl.
  - destruct (String.eqb k' k) eqn:E; [|done].
    apply String.eqb_eq in E. congruence.
  - destruct (String.eqb k k0) eqn:E; simpl.
    + apply String.eqb_eq in E. subst k0.
      destruct (String.eqb k' k) eqn:E'; [|done].
      apply String.eqb_eq in E'. congruence.
    + by rewrite IH.
Qed.

Lemma set_idemp k v d : PyDict.set k v (PyDict.set k v d) = PyDict.set k v d.
Proof.
  induction d as [|[k' v'] d IH]; simpl.
  - by rewrite String.eqb_refl.
  - destruct (String.eqb k k') eqn:E; simpl.
    + by rewrite String.eqb_refl.
    + by rewrite E, IH.
Qed.

Lemma length_set_le k v d :
  (List.length (PyDict.set k v d) ≤ S (List.length d))%nat.
Proof.
  induction d as [|[k' v'] d IH]; simpl; [lia|].
  destruct (String.eqb k k'); simpl; lia.
Qed.

Lemma length_set_present k v d :
  is_Some (PyDict.get k d) → List.length (PyDict.set k v d) = List.length d.
Proof.
  induction d as [|[k' v'] d IH]; simpl.
  - by intros [? ?].
  - destruct (String.eqb k k'); simpl; [done|]. intros. by rewrite IH.
Qed.

Lemma length_remove_le k d :
  (List.length (PyDict.remove k d) ≤ List.length d)%nat.
Proof.
  induction d as [|[k' v'] d IH]; simpl; [lia|].
  destruct (String.eqb k k'); simpl; lia.
Qed.

Lemma get_Some_elem k v d : PyDict.get k d = Some v → (k, v) ∈ d.
Proof.
  induction d as [|[k' v'] d IH]; simpl; [done|].
  destruct (String.eqb k k') eqn:E.
  - apply String.eqb_eq in E. intros [= ->]. subst. left.
  - intros. right. auto.
Qed.

Lemma elem_get k v d : PyDict.wf d → (k, v) ∈ d → PyDict.get k d = Some v.
Proof.
  unfold PyDict.wf, PyDict.keys.
  induction d as [|[k' v'] d IH]; simpl; intros Hnd Hin.
  - by apply elem_of_nil in Hin.
  - apply NoDup_cons in Hnd as [Hk Hnd].
    apply elem_of_cons in Hin as [[= -> ->]|Hin].
    + by rewrite String.eqb_refl.
    + destruct (String.eqb k k') eqn:E; [|by apply IH].
      apply String.eqb_eq in E. subst k'. exfalso. apply Hk.
      apply list_elem_of_fmap. by exists (k, v).
Qed.
End facts.
End PyDictFacts.

(** ** Rate limit *)

Lemma Qlt_bool_iff (a b : Q) : Qlt_bool a b = true ↔ (a < b)%Q.
Proof.
  unfold Qlt_bool. rewrite negb_true_iff. split.
  - intros Hf. apply Qnot_le_lt. intros Hle.
    apply Qle_bool_iff in Hle. congruence.
  - intros Hlt. destruct (Qle_bool b a) eqn:E; [|done].
    apply Qle_bool_iff in E. exfalso. by apply (Qlt_not_le a b).
Qed.

Lemma Qlt_bool_false_iff (a b : Q) : Qlt_bool a b = false ↔ (b <= a)%Q.
Proof.
  unfold Qlt_bool. rewrite negb_false_iff. apply Qle_bool_iff.
Qed.

(** The interval between two messages at the default rate is 0.01 s. *)
Lemma min_interval : (1 / Config.MAX_MESSAGES_PER_SECOND == 1 # 100)%Q.
Proof. reflexivity. Qed.

(** C5. [check_rate_limit] succeeds exactly when at least
    [1 / MAX_MESSAGES_PER_SECOND] (0.01 s) has passed since the peer's last
    accepted message; on success it stores [now] in [last_message_time],
    adds one to [messages_sent] and leaves the other fields alone; on
    failure the peer is unchanged. *)
Theorem check_rate_limit_spec (now : Q) (p : Peer) :
  ((check_rate_limit now p).1 = true ↔
     (1 / Config.MAX_MESSAGES_PER_SECOND <= now - last_message_time p)%Q)
  ∧ ((check_rate_limit now p).1 = true ↔
       (1 # 100 <= now - last_message_time p)%Q)
  ∧ ((check_rate_limit now p).1 = true →
       (check_rate_limit now p).2 =
         {| ws := ws p; peer_id := peer_id p; is_host := is_host p;
            room_code := room_code p; ip_address := ip_address p;
            connected_at := connected_at p;
            messages_sent := messages_sent p + 1;
            last_message_time := now |})
  ∧ ((check_rate_limit now p).1 = false → (check_rate_limit now p).2 = p).
Proof.
  assert (Hmain : (check_rate_limit now p).1 = true ↔
            (1 / Config.MAX_MESSAGES_PER_SECOND <= now - last_message_time p)%Q).
  { unfold check_rate_limit.
    destruct (Qlt_bool (now - last_message_time p)
                (1 / Config.MAX_MESSAGES_PER_SECOND)) eqn:E; simpl.
    - apply Qlt_bool_iff in E. split; [done|].
      intros Hle. exfalso. by apply (Qlt_not_le _ _ E).
    - apply Qlt_bool_false_iff in E. by split. }
  split; [exact Hmain|]. split.
  - rewrite Hmain. by rewrite min_interval.
  - unfold check_rate_limit.
    destruct (Qlt_bool (now - last_message_time p)
                (1 / Config.MAX_MESSAGES_PER_SECOND)); simpl; by split.
Qed.

(** ** Lookup with lazy reaping *)

(** C6. [get_room] looks under the upper-cased code. A stored room that is
    not expired is returned and the registry is untouched; an expired one is
    deleted from the registry and the result is not-found; an absent code
    gives not-found. In every case no expired room is left under that code
    afterwards, and the other slots and tables are as before. *)
Theorem get_room_spec (st : RoomManager) (c : string) (now : Q) :
  match rooms st !! upper c with
  | Some room =>
      if is_expired now room then
        (get_room st c now).1 = None
        ∧ rooms (get_room st c now).2 = delete (upper c) (rooms st)
      else (get_room st c now).1 = Some room ∧ (get_room st c now).2 = st
  | None => (get_room st c now).1 = None ∧ (get_room st c now).2 = st
  end
  ∧ (∀ room, rooms (get_room st c now).2 !! upper c = Some room →
       is_expired now room = false)
  ∧ (∀ k, k ≠ upper c →
       rooms (get_room st c now).2 !! k = rooms st !! k)
  ∧ ip_connections (get_room st c now).2 = ip_connections st.
Proof.
  unfold get_room.
  destruct (rooms st !! upper c) as [room|] eqn:Hl.
  - destruct (is_expired now room) eqn:He; simpl.
    + repeat split; [|intros k Hk; by rewrite lookup_delete_ne].
      intros room'. by rewrite lookup_delete_eq.
    + repeat split. intros room'. rewrite Hl. by intros [= <-].
  - simpl. repeat split. intros room'. by rewrite Hl.
Qed.

(** ** Room codes *)

Lemma chars_length : List.length chars = 32%nat.
Proof. reflexivity. Qed.

Lemma choice_chars (r : nat) : choice chars r ∈ chars.
Proof.
  unfold choice. apply list_elem_of_In, nth_In.
  rewrite chars_length. apply Nat.mod_upper_bound. lia.
Qed.

Lemma string_of_list_ascii_length (l : list ascii) :
  String.length (string_of_list_ascii l) = List.length l.
Proof. induction l; simpl; congruence. Qed.

Lemma drawn_shape (tape : list nat) :
  (Config.ROOM_CODE_LENGTH ≤ List.length tape)%nat →
  String.length (drawn tape) = Config.ROOM_CODE_LENGTH
  ∧ Forall (λ a, a ∈ chars) (list_ascii_of_string (drawn tape)).
Proof.
  intros Hlen. unfold drawn. split.
  - rewrite string_of_list_ascii_length, length_map, length_take. lia.
  - rewrite list_ascii_of_string_of_list_ascii.
    apply Forall_forall. intros a Ha.
    apply list_elem_of_fmap in Ha as (r & -> & _). apply choice_chars.
Qed.

Lemma generate_room_code_loop_sound fuel (m : gmap string Room) tape c :
  generate_room_code_loop fuel m tape = Some c →
  String.length c = Config.ROOM_CODE_LENGTH
  ∧ Forall (λ a, a ∈ chars) (list_ascii_of_string c)
  ∧ m !! c = None.
Proof.
  revert tape. induction fuel as [|fuel IH]; intros tape; simpl; [done|].
  destruct (List.length tape <? Config.ROOM_CODE_LENGTH)%nat eqn:Hlt; [done|].
  apply Nat.ltb_ge in Hlt. fold (drawn tape).
  destruct (m !! drawn tape) eqn:Hm.
  - apply IH.
  - intros [= <-]. destruct (drawn_shape tape Hlt). by repeat split.
Qed.

(** X2. [generate_room_code] returns as soon as a draw is free: when the
    first [ROOM_CODE_LENGTH] symbols drawn spell a code no active room has,
    the call terminates after one pass with that code. *)
Lemma generate_room_code_first_free (st : RoomManager) tape :
  (Config.ROOM_CODE_LENGTH ≤ List.length tape)%nat →
  rooms st !! drawn tape = None →
  generate_room_code st tape = Some (drawn tape).
Proof.
  intros Hlen Hfree. unfold generate_room_code. simpl.
  apply Nat.ltb_ge in Hlen. rewrite Hlen. fold (drawn tape). by rewrite Hfree.
Qed.

Lemma generate_room_code_first_free_witness :
  generate_room_code RoomManager_init [31; 30; 29; 28; 27; 26; 7]%nat
  = Some "987654".
Proof.
  apply (generate_room_code_first_free RoomManager_init
           [31; 30; 29; 28; 27; 26; 7]%nat).
  - vm_compute. lia.
  - vm_compute. reflexivity.
Defined.



(** ** Message relay *)

Lemma relay_loop_stamped sender_id target_id ps m :
  PyDict.set "senderId" (JStr sender_id) m = m →
  relay_loop sender_id target_id ps m =
    (m, map (λ kv, Send (ws kv.2) (JObj m))
          (filter (λ kv, delivers sender_id target_id kv.1 = true) ps)).
Proof.
  intros Hm. induction ps as [|[pid peer] ps IH]; [done|].
  cbn [relay_loop].
  destruct (String.eqb pid sender_id) eqn:Es.
  - rewrite IH, filter_cons_False; [done|].
    unfold delivers. simpl. by rewrite Es.
  - destruct (targets_other target_id pid) eqn:Et.
    + rewrite IH, filter_cons_False; [done|].
      unfold delivers. simpl. by rewrite Es, Et.
    + rewrite Hm, IH, filter_cons_True; [done|].
      unfold delivers. simpl. by rewrite Es, Et.
Qed.

Lemma relay_loop_frames sender_id target_id ps m :
  (relay_loop sender_id target_id ps m).2 =
    map (λ kv, Send (ws kv.2) (stamped sender_id m))
      (filter (λ kv, delivers sender_id target_id kv.1 = true) ps).
Proof.
  induction ps as [|[pid peer] ps IH]; [done|].
  cbn [relay_loop].
  destruct (String.eqb pid sender_id) eqn:Es.
  - rewrite IH, filter_cons_False; [done|].
    unfold delivers. simpl. by rewrite Es.
  - destruct (targets_other target_id pid) eqn:Et.
    + rewrite IH, filter_cons_False; [done|].
      unfold delivers. simpl. by rewrite Es, Et.
    + rewrite relay_loop_stamped by apply PyDictFacts.set_idemp.
      rewrite filter_cons_True; [done|].
      unfold delivers. simpl. by rewrite Es, Et.
Qed.

Lemma relay_message_frames room st sender_id m now t0 t1 :
  (relay_message room st sender_id (JObj m) now t0 t1).2 =
    Some (map (λ kv, Send (ws kv.2) (stamped sender_id m))
            (filter (λ kv, delivers sender_id (PyDict.get "targetId" m) kv.1 = true)
               (peers room))).
Proof.
  unfold relay_message. simpl.
  pose proof (relay_loop_frames sender_id (PyDict.get "targetId" m) (peers room) m) as Hf.
  destruct (relay_loop sender_id (PyDict.get "targetId" m) (peers room) m) as [m' fs].
  simpl in *. by rewrite Hf.
Qed.

Lemma targets_other_iff (target_id : option json) (pid : string) :
  targets_other target_id pid = true ↔
    ∃ t, target_id = Some t ∧ truthy t = true ∧ t ≠ JStr pid.
Proof.
  unfold targets_other. destruct target_id as [t|].
  - rewrite andb_true_iff. split.
    + intros [Ht Hne]. exists t. repeat split; [done|].
      intros ->. simpl in Hne. by rewrite String.eqb_refl in Hne.
    + intros (t' & [= <-] & Ht & Hne). split; [done|].
      destruct t; try done. simpl.
      destruct (String.eqb pid s) eqn:E; [|done].
      apply String.eqb_eq in E. by subst.
  - split; [done|]. by intros (t & ? & _).
Qed.

(** Distinct sockets identify the entry of a room's [peers]. *)
Lemma same_socket_same_entry (ps : list (string * Peer)) kv1 kv2 :
  NoDup (map ws (PyDict.values ps)) →
  kv1 ∈ ps → kv2 ∈ ps → ws kv1.2 = ws kv2.2 → kv1 = kv2.
Proof.
  unfold PyDict.values.
  induction ps as [|kv ps IH]; simpl; intros Hnd H1 H2 Hws.
  - by apply elem_of_nil in H1.
  - apply NoDup_cons in Hnd as [Hfresh Hnd].
    apply elem_of_cons in H1 as [->|H1]; apply elem_of_cons in H2 as [->|H2].
    + done.
    + exfalso. apply Hfresh. rewrite Hws.
      apply list_elem_of_fmap_2, list_elem_of_fmap_2. exact H2.
    + exfalso. apply Hfresh. rewrite <- Hws.
      apply list_elem_of_fmap_2, list_elem_of_fmap_2. exact H1.
    + by apply IH.
Qed.

(** C4, as the code has it. For a call of [relay_message] with sender [S] on
    an object message: every peer of the room other than [S] is sent the
    message with [senderId] set to [S] (a client-supplied [senderId] is
    overwritten), except the peers skipped because the VALUE of [targetId] is
    truthy and differs from their id; a skipped peer is sent nothing, [S] is
    sent nothing, and nothing but these sends goes out, so [S] gets no
    acknowledgement. The room's keys and sockets are pairwise distinct. *)
Theorem relay_message_delivery (room : Room) (st : RoomManager)
    (sender_id : string) (m : list (string * json)) (now t0 t1 : Q) :
  PyDict.wf (peers room) →
  NoDup (map ws (PyDict.values (peers room))) →
  ∃ frames,
    (relay_message room st sender_id (JObj m) now t0 t1).2 = Some frames
    ∧ (∀ pid peer,
         PyDict.get pid (peers room) = Some peer →
         pid ≠ sender_id →
         ¬ (∃ t, PyDict.get "targetId" m = Some t ∧ truthy t = true ∧ t ≠ JStr pid) →
         Send (ws peer) (stamped sender_id m) ∈ frames)
    ∧ (∀ pid peer data,
         PyDict.get pid (peers room) = Some peer →
         (∃ t, PyDict.get "targetId" m = Some t ∧ truthy t = true ∧ t ≠ JStr pid) →
         Send (ws peer) data ∉ frames)
    ∧ (∀ peer data,
         PyDict.get sender_id (peers room) = Some peer →
         Send (ws peer) data ∉ frames)
    ∧ (∀ f, f ∈ frames →
         ∃ pid peer, PyDict.get pid (peers room) = Some peer
                     ∧ pid ≠ sender_id
                     ∧ f = Send (ws peer) (stamped sender_id m))
    ∧ (∃ m', stamped sender_id m = JObj m'
             ∧ PyDict.get "senderId" m' = Some (JStr sender_id)).
Proof.
  intros Hwf Hws. eexists. split; [apply relay_message_frames|].
  set (target_id := PyDict.get "targetId" m).
  assert (Hin : ∀ f,
            f ∈ map (λ kv : string * Peer, Send (ws kv.2) (stamped sender_id m))
                  (filter (λ kv, delivers sender_id target_id kv.1 = true)
                     (peers room)) →
            ∃ pid peer, (pid, peer) ∈ peers room
                        ∧ delivers sender_id target_id pid = true
                        ∧ f = Send (ws peer) (stamped sender_id m)).
  { intros f Hf. apply list_elem_of_fmap in Hf as ([pid peer] & -> & Hkv).
    apply list_elem_of_filter in Hkv as [Hd Hkv]. by exists pid, peer. }
  assert (Hexcl : ∀ pid peer data,
            PyDict.get pid (peers room) = Some peer →
            delivers sender_id target_id pid = false →
            Send (ws peer) data
              ∉ map (λ kv : string * Peer, Send (ws kv.2) (stamped sender_id m))
                  (filter (λ kv, delivers sender_id target_id kv.1 = true)
                     (peers room))).
  { intros pid peer data Hget Hd Hf.
    apply Hin in Hf as (pid' & peer' & Hmem & Hd' & Heq).
    injection Heq as Hsock _.
    apply PyDictFacts.get_Some_elem in Hget.
    assert ((pid, peer) = (pid', peer')) as [= -> ->]
      by (by apply (same_socket_same_entry (peers room))).
    congruence. }
  repeat split.
  - intros pid peer Hget Hne Hnt.
    apply list_elem_of_fmap. exists (pid, peer). split; [done|].
    apply list_elem_of_filter. split; [|by apply PyDictFacts.get_Some_elem].
    unfold delivers. simpl. apply andb_true_iff. split.
    + apply negb_true_iff. destruct (String.eqb pid sender_id) eqn:E; [|done].
      by apply String.eqb_eq in E.
    + apply negb_true_iff.
      destruct (targets_other target_id pid) eqn:E; [|done].
      by apply targets_other_iff in E.
  - intros pid peer data Hget Ht. apply (Hexcl pid); [done|].
    apply targets_other_iff in Ht. unfold delivers. fold target_id in Ht.
    rewrite Ht. by rewrite andb_false_r.
  - intros peer data Hget. apply (Hexcl sender_id); [done|].
    unfold delivers. by rewrite String.eqb_refl.
  - intros f Hf. apply Hin in Hf as (pid & peer & Hmem & Hd & ->).
    exists pid, peer. split; [by apply PyDictFacts.elem_get|]. split; [|done].
    intros ->. unfold delivers in Hd. by rewrite String.eqb_refl in Hd.
  - eexists. split; [reflexivity|]. apply PyDictFacts.get_set_eq.
Qed.

Lemma relay_message_delivery_witness :
  ∃ frames,
    (relay_message Demo.trio RoomManager_init "alice" (JObj Demo.offer) 0 0 0).2
      = Some frames
    ∧ (Send 2%nat (JObj [("type", JStr "offer"); ("senderId", JStr "alice");
                         ("targetId", JStr "bob")])) ∈ frames
    ∧ (Send 3%nat (stamped "alice" Demo.offer) ∉ frames)
    ∧ (Send 1%nat (stamped "alice" Demo.offer) ∉ frames).
Proof.
  assert (Hwf : PyDict.wf (peers Demo.trio)).
  { apply (bool_decide_unpack _). vm_compute. exact I. }
  assert (Hws : NoDup (map ws (PyDict.values (peers Demo.trio)))).
  { apply (bool_decide_unpack _). vm_compute. exact I. }
  destruct (relay_message_delivery Demo.trio RoomManager_init "alice"
              Demo.offer 0 0 0 Hwf Hws)
    as (frames & Hf & Hyes & Hskip & Hself & _).
  exists frames. split; [exact Hf|]. split; [|split].
  - apply (Hyes "bob" Demo.bob); [reflexivity|discriminate|].
    intros (t & Ht & _ & Hne). vm_compute in Ht. congruence.
  - apply (Hskip "carol" Demo.carol); [reflexivity|].
    exists (JStr "bob"). split; [reflexivity|]. split; [reflexivity|discriminate].
  - apply (Hself Demo.alice). reflexivity.
Defined.

(** C4 as the specification words it fails: a [targetId] that is present and
    differs from a peer's id does not keep the message from that peer when
    its value is falsy. Here [alice] sends, in a room with [bob], a message
    whose [targetId] is the empty string, and [bob] is sent it. *)
Lemma relay_message_presence_counterexample :
  ¬ (∀ (room : Room) (st : RoomManager) (sender_id : string)
       (m : list (string * json)) (now t0 t1 : Q) frames pid peer data,
       (relay_message room st sender_id (JObj m) now t0 t1).2 = Some frames →
       PyDict.get pid (peers room) = Some peer →
       (∃ t, PyDict.get "targetId" m = Some t ∧ t ≠ JStr pid) →
       Send (ws peer) data ∉ frames).
Proof.
  intros Hclaim.
  apply (Hclaim Demo.pair RoomManager_init "alice" Demo.blank_target 0%Q 0%Q 0%Q
           [Send 2%nat (stamped "alice" Demo.blank_target)]
           "bob" Demo.bob (stamped "alice" Demo.blank_target)).
  - reflexivity.
  - reflexivity.
  - exists (JStr ""). split; [reflexivity|discriminate].
  - left.
Qed.

(** C9. When the [targetId] key is present with a falsy value (the empty
    string, null, zero or false, among others), [relay_message] sends the
    stamped message to every peer other than the sender: targeting goes by
    the truthiness of the value, not by the presence of the key. *)
Theorem relay_falsy_target_broadcasts (room : Room) (st : RoomManager)
    (sender_id : string) (m : list (string * json)) (v : json) (now t0 t1 : Q) :
  PyDict.get "targetId" m = Some v →
  truthy v = false →
  (relay_message room st sender_id (JObj m) now t0 t1).2 =
    Some (map (λ kv, Send (ws kv.2) (stamped sender_id m))
            (filter (λ kv, kv.1 ≠ sender_id) (peers room)))
  ∧ truthy (JStr "") = false ∧ truthy JNull = false
  ∧ truthy (JNum 0) = false ∧ truthy (JBool false) = false.
Proof.
  intros Hget Hfalsy. split; [|done].
  rewrite relay_message_frames. f_equal. f_equal.
  apply list_filter_iff. intros [pid peer]. simpl.
  unfold delivers, targets_other. rewrite Hget, Hfalsy. simpl.
  rewrite andb_true_r, negb_true_iff. split.
  - intros E ->. by rewrite String.eqb_refl in E.
  - intros Hne. destruct (String.eqb pid sender_id) eqn:E; [|done].
    by apply String.eqb_eq in E.
Qed.

Lemma relay_falsy_target_broadcasts_witness :
  (relay_message Demo.trio RoomManager_init "alice"
     (JObj Demo.blank_target) 0 0 0).2 =
    Some [Send 2%nat (JObj [("type", JStr "candidate"); ("targetId", JStr "");
                            ("senderId", JStr "alice")]);
          Send 3%nat (JObj [("type", JStr "candidate"); ("targetId", JStr "");
                            ("senderId", JStr "alice")])].
Proof.
  exact (proj1 (relay_falsy_target_broadcasts Demo.trio RoomManager_init "alice"
                  Demo.blank_target (JStr "") 0 0 0 eq_refl eq_refl)).
Defined.

(** ** The registry invariant *)

Lemma rooms_ok_init : rooms_ok RoomManager_init.
Proof. apply map_Forall_empty. Qed.

Lemma rooms_ok_insert st key room :
  rooms_ok st →
  (peer_count room ≤ Config.MAX_PEERS_PER_ROOM)%nat →
  rooms_ok (with_rooms (<[key := room]> (rooms st)) st).
Proof. intros Hok Hr. unfold rooms_ok. simpl. by apply map_Forall_insert_2. Qed.

Lemma rooms_ok_delete st key :
  rooms_ok st → rooms_ok (with_rooms (delete key (rooms st)) st).
Proof. intros Hok. unfold rooms_ok. simpl. by apply map_Forall_delete. Qed.

Lemma rooms_ok_same_rooms st st' :
  rooms st' = rooms st → rooms_ok st → rooms_ok st'.
Proof. unfold rooms_ok. by intros ->. Qed.

Lemma create_room_ok st tape t1 t2 c st' :
  create_room st tape t1 t2 = Return (c, st') → rooms_ok st → rooms_ok st'.
Proof.
  unfold create_room.
  destruct (Z.of_nat (size (rooms st)) >=? Config.MAX_ROOMS)%Z; [done|].
  destruct (generate_room_code st tape); [|done].
  intros [= <- <-] Hok. apply rooms_ok_insert; [done|].
  unfold peer_count. simpl. unfold Config.MAX_PEERS_PER_ROOM. lia.
Qed.

Lemma get_room_ok st c now :
  rooms_ok st → rooms_ok (get_room st c now).2.
Proof.
  intros Hok. unfold get_room.
  destruct (rooms st !! upper c) as [room|]; [|done].
  destruct (is_expired now room); [|done]. by apply rooms_ok_delete.
Qed.

Lemma get_room_found st c now room :
  (get_room st c now).1 = Some room →
  rooms (get_room st c now).2 !! upper c = Some room.
Proof.
  unfold get_room.
  destruct (rooms st !! upper c) as [room'|] eqn:Hl; [|done].
  destruct (is_expired now room'); [done|]. simpl. by intros [= <-].
Qed.

Lemma close_room_ok st c : rooms_ok st → rooms_ok (close_room st c).1.
Proof.
  intros Hok. unfold close_room.
  destruct (rooms st !! upper c); [|done]. by apply rooms_ok_delete.
Qed.

Lemma check_ip_limit_rooms st ip : rooms (check_ip_limit st ip).2 = rooms st.
Proof.
  unfold check_ip_limit. by destruct (dd_read ip (ip_connections st)).
Qed.

Lemma add_peer_shape room st peer now :
  peers (add_peer room st peer now).1.1 = PyDict.set (peer_id peer) peer (peers room)
  ∧ rooms (add_peer room st peer now).1.2 = rooms st.
Proof.
  unfold add_peer.
  by destruct (dd_read (ip_address peer) (ip_connections st)).
Qed.

Lemma ws_join_ok st w ip rc pid host token clk key room :
  rooms_ok st →
  rooms_ok (ws_join st w ip rc pid host token clk key room).1.1.
Proof.
  intros Hok. unfold ws_join.
  destruct (Config.MAX_PEERS_PER_ROOM <=? peer_count room)%nat eqn:Hfull; [done|].
  apply Nat.leb_gt in Hfull.
  match goal with
  | |- context [add_peer ?r ?s ?p ?t] =>
      destruct (add_peer_shape r s p t) as [Hp Hr];
      destruct (add_peer r s p t) as [[room' st1] fs]
  end.
  simpl in *. apply rooms_ok_insert.
  - by apply (rooms_ok_same_rooms st).
  - unfold peer_count in *. rewrite Hp.
    etransitivity; [apply PyDictFacts.length_set_le|]. lia.
Qed.

Lemma ws_admit_ok st w ip rc pid host tape token clk :
  rooms_ok st →
  rooms_ok (ws_admit st w ip rc pid host tape token clk).1.1.
Proof.
  intros Hok. unfold ws_admit.
  pose proof (get_room_ok st (upper rc) (t_lookup clk) Hok) as Hok1.
  destruct (get_room st (upper rc) (t_lookup clk)) as [found st1].
  simpl in Hok1. destruct found as [room|]; [by apply ws_join_ok|].
  destruct (String.eqb (lower host) "true"); [|done].
  destruct (create_room st1 tape (t_created clk) (t_activity clk))
    as [[c st2]| |] eqn:Hc; [|done|done].
  pose proof (create_room_ok _ _ _ _ _ _ Hc Hok1) as Hok2.
  destruct (rooms st2 !! upper rc) as [old|] eqn:Hold.
  - rewrite Hold. by apply ws_join_ok.
  - destruct (rooms st2 !! c) as [fresh|] eqn:Hfresh; [|done].
    assert (Hok3 : rooms_ok (with_rooms (<[upper rc := with_code (upper rc) fresh]>
                                          (delete c (rooms st2))) st2)).
    { unfold rooms_ok. simpl. apply map_Forall_insert_2.
      - apply (Hok2 c fresh Hfresh).
      - by apply map_Forall_delete. }
    simpl. rewrite lookup_insert_eq. by apply ws_join_ok.
Qed.

Lemma relay_message_shape room st sender_id message now t0 t1 :
  peers (relay_message room st sender_id message now t0 t1).1.1 = peers room
  ∧ rooms (relay_message room st sender_id message now t0 t1).1.2 = rooms st.
Proof.
  unfold relay_message. destruct message; try done. simpl.
  by destruct (relay_loop _ _ _ _).
Qed.

Lemma ws_receive_ok st key pid message t_limit now t0 t1 st' fs continue :
  ws_receive st key pid message t_limit now t0 t1 = Some (st', fs, continue) →
  rooms_ok st → rooms_ok st'.
Proof.
  unfold ws_receive. intros Hrecv Hok.
  destruct (rooms st !! key) as [room|] eqn:Hroom; [|done].
  destruct (PyDict.get pid (peers room)) as [peer|] eqn:Hpeer; [|done].
  destruct (check_rate_limit t_limit peer) as [[] peer'].
  - match type of Hrecv with
    | context [relay_message ?r ?s ?p ?m ?a ?b ?c] =>
        destruct (relay_message_shape r s p m a b c) as [Hp Hr];
        destruct (relay_message r s p m a b c) as [[room2 st2] sent]
    end.
    injection Hrecv as <- _ _. simpl in *. apply rooms_ok_insert.
    + by apply (rooms_ok_same_rooms st).
    + unfold peer_count. rewrite Hp. simpl.
      rewrite PyDictFacts.length_set_present by (by rewrite Hpeer).
      apply (Hok key room Hroom).
  - by injection Hrecv as <- _ _.
Qed.

Lemma remove_peer_ok st key room pid :
  rooms_ok st →
  (peer_count room ≤ Config.MAX_PEERS_PER_ROOM)%nat →
  rooms_ok (remove_peer st key room pid).1.
Proof.
  intros Hok Hroom. unfold remove_peer.
  destruct (PyDict.get pid (peers room)) as [peer|]; [|done].
  destruct (dd_read (ip_address peer) (ip_connections st)) as [n ips].
  match goal with
  | |- context [with_rooms (<[key := ?r]> _) ?s] =>
      assert (Hok1 : rooms_ok (with_rooms (<[key := r]> (rooms st)) s))
  end.
  { unfold rooms_ok. simpl. apply map_Forall_insert_2; [|done].
    unfold peer_count in *. simpl.
    etransitivity; [apply PyDictFacts.length_remove_le|done]. }
  destruct (peer_count _ =? 0)%nat; [|done].
  match goal with
  | |- context [close_room ?s ?c] =>
      pose proof (close_room_ok s c Hok1); destruct (close_room s c)
  end.
  done.
Qed.

Lemma ws_finally_ok st rc pid now :
  rooms_ok st → rooms_ok (ws_finally st rc pid now).1.
Proof.
  intros Hok. unfold ws_finally.
  pose proof (get_room_ok st rc now Hok) as Hok1.
  pose proof (get_room_found st rc now) as Hfound.
  destruct (get_room st rc now) as [[room|] st1]; [|done].
  simpl in *. apply remove_peer_ok; [done|].
  by apply (Hok1 (upper rc) room), Hfound.
Qed.

Lemma cleanup_sweep_ok st now : rooms_ok st → rooms_ok (cleanup_sweep st now).1.
Proof.
  unfold cleanup_sweep.
  generalize (map fst (filter (λ kv, is_expired now kv.2 = true)
                         (map_to_list (rooms st)))).
  intros expired. generalize (@nil frame). revert st.
  induction expired as [|c expired IH]; intros st fs Hok; [done|].
  simpl. pose proof (close_room_ok st c Hok) as Hok1.
  destruct (close_room st c) as [st1 fs1]. by apply IH.
Qed.

Lemma step_ok st st' : step st st' → rooms_ok st → rooms_ok st'.
Proof.
  intros Hstep Hok. destruct Hstep.
  - by eapply create_room_ok.
  - pose proof (get_room_ok st c now Hok) as Hg. by rewrite H in Hg.
  - apply (rooms_ok_same_rooms st); [|done].
    pose proof (check_ip_limit_rooms st ip) as Hr. by rewrite H in Hr.
  - pose proof (ws_admit_ok st w ip rc pid host tape token clk Hok) as Ha.
    by rewrite H in Ha.
  - by eapply ws_receive_ok.
  - destruct (relay_message_shape room st pid message now t0 t1) as [Hp Hr].
    rewrite H0 in Hp, Hr. simpl in *. apply rooms_ok_insert.
    + by apply (rooms_ok_same_rooms st).
    + unfold peer_count. rewrite Hp. apply (Hok key room H).
  - destruct (relay_message_shape room st pid message now t0 t1) as [_ Hr].
    rewrite H in Hr. by apply (rooms_ok_same_rooms st).
  - pose proof (ws_finally_ok st rc pid now Hok) as Hf. by rewrite H in Hf.
  - pose proof (close_room_ok st c Hok) as Hc. by rewrite H in Hc.
  - pose proof (cleanup_sweep_ok st now Hok) as Hs. by rewrite H in Hs.
Qed.

Lemma reachable_ok st : reachable st → rooms_ok st.
Proof.
  unfold reachable. intros Hr.
  apply (rtc_ind_r (R := step) (λ s, rooms_ok s) RoomManager_init);
    [apply rooms_ok_init| |exact Hr].
  intros st1 st2 _ Hstep IH. by apply (step_ok st1).
Qed.

Lemma host_count_le_peer_count room : (host_count room ≤ peer_count room)%nat.
Proof.
  unfold host_count, peer_count, PyDict.values.
  etransitivity; [apply length_filter|]. by rewrite length_map.
Qed.

(** C1, as the code has it. In every reachable state of the registry every
    active room has between 0 and [MAX_PEERS_PER_ROOM] (2) peers, and the
    members with [is_host] set are bounded by the peer count only: the
    admission checks capacity and never looks at who is host. *)
Theorem room_bounds (st : RoomManager) (key : string) (room : Room) :
  reachable st →
  rooms st !! key = Some room →
  (0 ≤ peer_count room ≤ Config.MAX_PEERS_PER_ROOM)%nat
  ∧ Config.MAX_PEERS_PER_ROOM = 2%nat
  ∧ (host_count room ≤ peer_count room)%nat.
Proof.
  intros Hreach Hroom. split; [|split; [done|apply host_count_le_peer_count]].
  split; [lia|]. apply (reachable_ok st Hreach key room Hroom).
Qed.

(** The concrete runs are runs of the transition system. *)
Lemma reachable_created : reachable Run.created.
Proof.
  eapply rtc_l; [|apply rtc_refl].
  apply (step_create _ Run.tape 0 0 "ABCDEF"). vm_compute; reflexivity.
Qed.

Lemma reachable_hosted : reachable Run.hosted.
Proof.
  eapply rtc_l; [eapply (step_check_ip _ "10.0.0.1"); vm_compute; reflexivity|].
  eapply rtc_l; [|apply rtc_refl].
  eapply (step_admit _ 1%nat "10.0.0.1" "ab23cd" (Some "alice") "true" Run.tape
            "tok" Run.clk0).
  vm_compute; reflexivity.
Qed.

Lemma reachable_two_hosts : reachable Run.two_hosts.
Proof.
  eapply rtc_r; [apply reachable_hosted|].
  eapply (step_admit _ 2%nat "10.0.0.2" "AB23CD" (Some "bob") "TRUE" []
            "tok" Run.clk0).
  vm_compute; reflexivity.
Qed.

Lemma reachable_cleaned : reachable Run.cleaned.
Proof.
  eapply rtc_r; [eapply rtc_r; [apply reachable_hosted|]|].
  - eapply (step_sweep _ Run.late). vm_compute; reflexivity.
  - eapply (step_finally _ "AB23CD" "alice" Run.late). vm_compute; reflexivity.
Qed.

Lemma room_bounds_witness :
  (peer_count (Room_init "ABCDEF" 0 0) ≤ Config.MAX_PEERS_PER_ROOM)%nat.
Proof.
  assert (Hroom : rooms Run.created !! "ABCDEF" = Some (Room_init "ABCDEF" 0 0))
    by (vm_compute; reflexivity).
  destruct (room_bounds Run.created "ABCDEF" (Room_init "ABCDEF" 0 0)
              reachable_created Hroom) as [[_ Hle] _].
  exact Hle.
Defined.

(** C1 as the specification words it fails twice: a room created over REST is
    active with no peer, and two connections with [isHost=true] make a room
    with two hosts. *)
Lemma room_invariant_counterexample :
  ¬ (∀ st key room, reachable st → rooms st !! key = Some room →
       (0 < peer_count room)%nat)
  ∧ ¬ (∀ st key room, reachable st → rooms st !! key = Some room →
         (host_count room ≤ 1)%nat).
Proof.
  split; intros Hclaim.
  - assert (Hroom : rooms Run.created !! "ABCDEF" = Some (Room_init "ABCDEF" 0 0))
      by (vm_compute; reflexivity).
    specialize (Hclaim Run.created "ABCDEF" (Room_init "ABCDEF" 0 0)
                  reachable_created Hroom).
    vm_compute in Hclaim. lia.
  - destruct (rooms Run.two_hosts !! "AB23CD") as [room|] eqn:Hroom;
      [|by vm_compute in Hroom].
    specialize (Hclaim Run.two_hosts "AB23CD" room reachable_two_hosts Hroom).
    vm_compute in Hroom. injection Hroom as <-.
    vm_compute in Hclaim. lia.
Qed.

(** C2 fails on the code. A host joins from 10.0.0.1: one peer, one counted
    connection. The room expires and the janitor closes it: [close_room]
    drops the room with its member and leaves [ip_connections] alone. The
    handler's [finally] block then finds no room and skips [remove_peer], so
    the server rests with no peer and one counted connection. *)
Theorem ip_count_leak :
  (check_ip_limit RoomManager_init "10.0.0.1").1 = true
  ∧ peer_total Run.hosted = 1%Z ∧ ip_total Run.hosted = 1%Z
  ∧ cleanup_sweep Run.hosted Run.late
    = (Run.swept, [Close 1%nat 1000 "Room closed"])
  ∧ rooms Run.swept = ∅
  ∧ ip_connections Run.swept !! "10.0.0.1" = Some 1%Z
  ∧ ws_finally Run.swept "AB23CD" "alice" Run.late = (Run.cleaned, [])
  ∧ reachable Run.cleaned
  ∧ peer_total Run.cleaned = 0%Z ∧ ip_total Run.cleaned = 1%Z.
Proof.
  repeat split; try (vm_compute; reflexivity). apply reachable_cleaned.
Qed.

(** ** Relay store: delete *)

(** C8. [delete_file] never raises, and a second [delete_file] on the same id
    changes nothing. After the first one the metadata entry is gone and,
    unless [unlink] failed for a reason other than absence, so is the on-disk
    object: the raw file or the [.lz4] file according to the [compressed]
    flag. An object that is already absent is tolerated. The endpoint answers
    [{"deleted": true}] each time. *)
Theorem delete_file_idempotent (st : FileRelay) (file_id : string)
    (fails again_fails : bool) :
  delete_file (delete_file st file_id fails) file_id again_fails
    = delete_file st file_id fails
  ∧ files (delete_file st file_id fails) !! file_id = None
  ∧ (∀ other, other ≠ file_id →
       files (delete_file st file_id fails) !! other = files st !! other)
  ∧ match files st !! file_id with
    | Some meta =>
        (fails = false →
           disk (delete_file st file_id fails) !! stored_name file_id meta = None
           ∧ ∀ other, other ≠ stored_name file_id meta →
               disk (delete_file st file_id fails) !! other = disk st !! other)
        ∧ (disk st !! stored_name file_id meta = None →
             disk (delete_file st file_id fails) = disk st)
    | None => delete_file st file_id fails = st
    end
  ∧ delete_relay_file (delete_file st file_id fails) file_id again_fails
    = (JObj [("deleted", JBool true)], delete_file st file_id fails).
Proof.
  assert (Hgone : files (delete_file st file_id fails) !! file_id = None).
  { unfold delete_file. destruct (files st !! file_id) eqn:Hl; [|done].
    simpl. apply lookup_delete_eq. }
  assert (Hagain : delete_file (delete_file st file_id fails) file_id again_fails
                   = delete_file st file_id fails).
  { unfold delete_file at 1. by rewrite Hgone. }
  split; [done|]. split; [done|]. split; [|split].
  - intros other Hne. unfold delete_file.
    destruct (files st !! file_id); [|done]. simpl. by apply lookup_delete_ne.
  - unfold delete_file, stored_name.
    destruct (files st !! file_id) as [meta|]; [|done]. simpl. split.
    + intros ->. split; [apply lookup_delete_eq|].
      intros other Hne. by apply lookup_delete_ne.
    + intros Habsent. destruct fails; [done|]. by apply delete_id.
  - unfold delete_relay_file. by rewrite Hagain.
Qed.

(** ** Relay store: reading in chunks *)

Lemma chunk_size_pos : (0 < chunk_size)%nat.
Proof. unfold chunk_size, Config.CHUNK_SIZE. lia. Qed.

Lemma read_loop_concat fuel n (data : bytes) :
  (0 < n)%nat → (List.length data < fuel)%nat →
  concat (read_loop fuel n data) = data.
Proof.
  intros Hn. revert data.
  induction fuel as [|fuel IH]; intros data Hfuel; [lia|].
  cbn [read_loop]. destruct (take n data) as [|b chunk] eqn:Htake.
  - destruct data as [|b data]; [done|]. destruct n; [lia|]. done.
  - rewrite concat_cons, IH.
    + rewrite <- Htake. apply take_drop.
    + rewrite length_drop. assert (data ≠ []) by (by intros ->; destruct n).
      destruct data; [done|]. simpl in *. lia.
Qed.

Lemma read_loop_nonempty fuel n (data : bytes) :
  Forall (λ c, c ≠ []) (read_loop fuel n data).
Proof.
  revert data. induction fuel as [|fuel IH]; intros data; simpl; [done|].
  destruct (take n data) as [|b chunk]; [done|].
  constructor; [done|apply IH].
Qed.

(** Reading a file to its end hands out all of it, in non-empty chunks. *)
Lemma read_chunks_concat_at (n : nat) (data : bytes) :
  (0 < n)%nat → concat (read_chunks n data) = data.
Proof.
  intros Hn. unfold read_chunks. apply read_loop_concat; [done|lia].
Qed.

Lemma read_chunks_nonempty_at (n : nat) (data : bytes) :
  Forall (λ c, c ≠ []) (read_chunks n data).
Proof. apply read_loop_nonempty. Qed.

Lemma read_chunks_concat (data : bytes) :
  concat (read_chunks chunk_size data) = data.
Proof. apply read_chunks_concat_at, chunk_size_pos. Qed.

Lemma read_chunks_nonempty (data : bytes) :
  Forall (λ c, c ≠ []) (read_chunks chunk_size data).
Proof. apply read_chunks_nonempty_at. Qed.

Lemma length_concat_sum (chunks : list bytes) (n : Z) :
  foldl (λ acc (c : bytes), (acc + Z.of_nat (List.length c))%Z) n chunks
  = (n + Z.of_nat (List.length (concat chunks)))%Z.
Proof.
  revert n. induction chunks as [|c chunks IH]; intros n; simpl; [lia|].
  rewrite IH, length_app. lia.
Qed.

Section relay_facts.
Context `{Lz4Frame} `{XxHash}.

Lemma foldl_raw_step (chunks : list bytes) n h written :
  foldl raw_step (n, h, written) chunks
  = ((n + Z.of_nat (List.length (concat chunks)))%Z,
     foldl update h chunks, written ++ concat chunks).
Proof.
  revert n h written.
  induction chunks as [|c chunks IH]; intros n h written; simpl.
  - f_equal; [f_equal; lia|by rewrite app_nil_r].
  - rewrite IH. f_equal; [f_equal|].
    + rewrite length_app. lia.
    + by rewrite <- app_assoc.
Qed.

Lemma store_file_raw st file room_code compress file_id t1 t2 :
  compress && declared_over (declared_size file) Config.MIN_COMPRESS_SIZE = false →
  let '(meta, st') := store_file st file room_code compress file_id t1 t2 in
  FileMetadata.compressed meta = false
  ∧ FileMetadata.id meta = file_id
  ∧ FileMetadata.original_size meta
    = Some (Z.of_nat (List.length (content file)))
  ∧ FileMetadata.size meta = Z.of_nat (List.length (content file))
  ∧ files st' !! file_id = Some meta
  ∧ disk st' !! file_id = Some (content file).
Proof.
  intros Hraw. unfold store_file. rewrite Hraw. unfold ingest_raw.
  rewrite foldl_raw_step, read_chunks_concat. simpl.
  repeat split; try done; apply lookup_insert_eq.
Qed.

(** C10. When the declared size of an upload is absent or 0, the 413
    rejection does not fire whatever the bytes streamed, and [store_file]
    takes the raw path even with [compress=true]: the object on disk is the
    content itself under the bare file id, and the metadata says
    [compressed=false]. *)
Theorem upload_undeclared_size (st : FileRelay) (file : UploadFile)
    (room_code : option string) (compress : bool) (file_id : string)
    (t1 t2 : Q) :
  declared_size file = None ∨ declared_size file = Some 0%Z →
  ∃ response meta st',
    upload_file st file room_code compress file_id t1 t2
      = Return (response, st')
    ∧ store_file st file room_code compress file_id t1 t2 = (meta, st')
    ∧ FileMetadata.compressed meta = false
    ∧ PyDict.get "compressed"
        match response with JObj m => m | _ => [] end = Some (JBool false)
    ∧ FileMetadata.original_size meta
      = Some (Z.of_nat (List.length (content file)))
    ∧ files st' !! file_id = Some meta
    ∧ disk st' !! file_id = Some (content file).
Proof.
  intros Hsize.
  assert (Hover : ∀ limit, declared_over (declared_size file) limit = false).
  { intros limit. by destruct Hsize as [-> | ->]. }
  pose proof (store_file_raw st file room_code compress file_id t1 t2) as Hraw.
  rewrite Hover, andb_false_r in Hraw. specialize (Hraw eq_refl).
  unfold upload_file. rewrite Hover.
  destruct (store_file st file room_code compress file_id t1 t2)
    as [meta st'].
  destruct Hraw as (Hc & Hid & Hsz & _ & Hfiles & Hdisk).
  eexists _, meta, st'. split; [reflexivity|].
  repeat split; try done. simpl. by rewrite Hc.
Qed.
End relay_facts.

(** ** Relay store: compressed round trip *)

Section round_trip.
Context `{Lz4Frame} `{XxHash}.

Lemma foldl_update_concat `{!XxHashLaws _} (chunks : list bytes) (h : hasher) :
  foldl update h chunks = update h (concat chunks).
Proof.
  revert h. induction chunks as [|c chunks IH]; intros h; simpl.
  - by rewrite update_nil.
  - by rewrite IH, update_app.
Qed.

Lemma encode_step_eq ctx out (chunk : bytes) :
  encode_step (ctx, out) chunk
  = ((compress_chunk ctx chunk).1, out ++ (compress_chunk ctx chunk).2).
Proof. unfold encode_step. simpl. by destruct (compress_chunk ctx chunk). Qed.

Lemma compress_step_eq n h ctx written (chunk : bytes) :
  compress_step (n, h, ctx, written) chunk
  = ((n + Z.of_nat (List.length chunk))%Z, update h chunk,
     (compress_chunk ctx chunk).1,
     written ++ (compress_chunk ctx chunk).2).
Proof. unfold compress_step. by destruct (compress_chunk ctx chunk). Qed.

Lemma foldl_encode_step_shift (chunks : list bytes) ctx out :
  foldl encode_step (ctx, out) chunks
  = ((foldl encode_step (ctx, []) chunks).1,
     out ++ (foldl encode_step (ctx, []) chunks).2).
Proof.
  revert ctx out. induction chunks as [|c chunks IH]; intros ctx out.
  - simpl. by rewrite app_nil_r.
  - cbn [foldl]. rewrite !encode_step_eq.
    rewrite (IH _ (out ++ _)), (IH _ ([] ++ _)). simpl.
    by rewrite app_assoc.
Qed.

Lemma foldl_compress_step (chunks : list bytes) n h ctx written :
  foldl compress_step (n, h, ctx, written) chunks
  = ((n + Z.of_nat (List.length (concat chunks)))%Z,
     foldl update h chunks,
     (foldl encode_step (ctx, []) chunks).1,
     written ++ (foldl encode_step (ctx, []) chunks).2).
Proof.
  revert n h ctx written.
  induction chunks as [|c chunks IH]; intros n h ctx written.
  - simpl. f_equal; [f_equal; f_equal; lia|by rewrite app_nil_r].
  - cbn [foldl]. rewrite compress_step_eq, encode_step_eq, IH.
    rewrite (foldl_encode_step_shift chunks _ ([] ++ _)). simpl.
    f_equal; [f_equal; f_equal|].
    + rewrite length_app. lia.
    + by rewrite app_assoc.
Qed.

Lemma ingest_compressed_frame (chunks : list bytes) :
  ingest_compressed chunks
  = (Z.of_nat (List.length (concat chunks)), foldl update xxh64 chunks,
     lz4_frame Config.LZ4_COMPRESSION_LEVEL chunks).
Proof.
  unfold ingest_compressed, lz4_frame.
  destruct (compress_begin create_compression_context
              Config.LZ4_COMPRESSION_LEVEL) as [ctx header].
  rewrite foldl_compress_step.
  destruct (foldl encode_step (ctx, []) chunks) as [ctx' body]. simpl.
  by rewrite app_assoc.
Qed.

(** Under the binding's contract every unpacking raises. *)
Lemma decompress_loop_raises `{!Lz4FrameLaws _} (pieces : list bytes) ctx :
  decompress_loop ctx pieces = pieces.
Proof.
  revert ctx. induction pieces as [|p pieces IH]; intros ctx; simpl; [done|].
  destruct (decompress_chunk ctx p) as [[[ctx' o] more]|] eqn:Hcall.
  - apply decompress_chunk_triple in Hcall.
    destruct more as [|k [|k' more]]; [done|done|]. by rewrite IH.
  - by rewrite IH.
Qed.

(** X1. With a binding whose [decompress_chunk] returns anything but a pair,
    a triple say, or raises, the decompressing iterator of [stream_file]
    falls back on every chunk: it yields the bytes on disk as read. *)
Lemma decompress_loop_fallback (pieces : list bytes) ctx :
  (∀ c p c' out more,
     decompress_chunk c p = Some (c', out, more) → List.length more ≠ 1%nat) →
  decompress_loop ctx pieces = pieces.
Proof.
  intros Hodd. revert ctx.
  induction pieces as [|p pieces IH]; intros ctx; simpl; [done|].
  destruct (decompress_chunk ctx p) as [[[ctx' o] more]|] eqn:Hcall.
  - specialize (Hodd _ _ _ _ _ Hcall).
    destruct more as [|k [|k' more]]; [|done|]; by rewrite IH.
  - by rewrite IH.
Qed.
End round_trip.

(** A file id out of [token_urlsafe] has no dot, so [with_suffix] appends. *)
Lemma rfind_absent (c : ascii) (s : string) :
  c ∉ list_ascii_of_string s → rfind c s = None.
Proof.
  induction s as [|a s IH]; simpl; [done|].
  intros Hnot. rewrite IH.
  - destruct (Ascii.eqb a c) eqn:E; [|done].
    apply Ascii.eqb_eq in E. subst. exfalso. apply Hnot. left.
  - intros Hin. apply Hnot. by right.
Qed.

Lemma with_suffix_urlsafe (file_id suf : string) :
  urlsafe_token file_id → with_suffix file_id suf = String.append file_id suf.
Proof.
  intros Htok. unfold with_suffix, suffix. rewrite rfind_absent; [done|].
  intros Hin. unfold urlsafe_token in Htok.
  rewrite Forall_forall in Htok. specialize (Htok _ Hin).
  revert Htok. apply (bool_decide_unpack _). vm_compute. exact I.
Qed.

(** C3. A file that [store_file] stored on the compressed path is not given
    back by [stream_file] with [decompress=true]. [decompress_chunk] returns
    three values, so the unpacking into [decompressed, _] raises on every
    chunk and the [except] branch yields the chunk as read: the body is the
    stored LZ4 frame, byte for byte the object on disk, although that very
    body decodes to the uploaded bytes. The checksum half of the claim
    holds: the recorded checksum is the xxh64 hex digest of the uploaded
    bytes, and [original_size] is their length. The frame codec and the hash
    are the libraries' and are taken with their contracts ([Lz4FrameLaws],
    [XxHashLaws]); the file id is a [token_urlsafe] token. *)
Theorem compressed_stream_yields_frame `{Lz4Frame} `{XxHash}
    `{!Lz4FrameLaws _} `{!XxHashLaws _}
    (st : FileRelay) (file : UploadFile) (room_code : option string)
    (compress : bool) (file_id : string) (t1 t2 : Q)
    (meta : FileMetadata.t) (st' : FileRelay) :
  urlsafe_token file_id →
  store_file st file room_code compress file_id t1 t2 = (meta, st') →
  FileMetadata.compressed meta = true →
  ∃ body,
    stream_file st' file_id true = Return (body, meta)
    ∧ concat body
      = lz4_frame Config.LZ4_COMPRESSION_LEVEL
          (read_chunks chunk_size (content file))
    ∧ disk st' !! String.append file_id ".lz4" = Some (concat body)
    ∧ lz4_decode create_decompression_context body = Some (content file)
    ∧ FileMetadata.checksum meta = Some (xxh64_hexdigest (content file))
    ∧ FileMetadata.original_size meta
      = Some (Z.of_nat (List.length (content file))).
Proof.
  intros Htok Hstore Hc.
  unfold store_file in Hstore. unfold stream_file.
  pose proof chunk_size_pos as Hn. revert Hstore Hn.
  generalize chunk_size. intros n Hstore Hn.
  pose proof (λ data, read_chunks_concat_at n data Hn) as Hread.
  destruct (compress && declared_over (declared_size file)
                          Config.MIN_COMPRESS_SIZE) eqn:Hpath.
  - rewrite ingest_compressed_frame, with_suffix_urlsafe in Hstore by done.
    cbv beta iota zeta in Hstore.
    apply pair_equal_spec in Hstore as [<- <-].
    cbn [files disk FileMetadata.compressed].
    rewrite lookup_insert_eq. cbn [FileMetadata.compressed].
    rewrite lookup_insert_eq. cbn [andb].
    rewrite decompress_loop_raises.
    eexists. split; [reflexivity|].
    cbn [FileMetadata.checksum FileMetadata.original_size].
    unfold xxh64_hexdigest.
    rewrite foldl_update_concat, !Hread.
    split; [done|]. split; [apply lookup_insert_eq|]. split; [|by split].
    rewrite (lz4_round_trip Config.LZ4_COMPRESSION_LEVEL
               (read_chunks n (content file))).
    + by rewrite Hread.
    + apply read_chunks_nonempty_at.
    + apply read_chunks_nonempty_at.
    + apply Hread.
  - unfold ingest_raw in Hstore. rewrite foldl_raw_step in Hstore.
    cbv beta iota zeta in Hstore.
    apply pair_equal_spec in Hstore as [<- _].
    cbn [FileMetadata.compressed] in Hc. discriminate Hc.
Qed.

(** The toy codec and hash meet the contracts. *)
Lemma toy_body_is_input (chunks : list bytes) :
  foldl (@encode_step Toy.triple_codec) (tt, []) chunks = (tt, concat chunks).
Proof.
  assert (Hgen : ∀ out, foldl (@encode_step Toy.triple_codec) (tt, out) chunks
                        = (tt, out ++ concat chunks)).
  { induction chunks as [|c chunks IH]; intros out; simpl.
    - by rewrite app_nil_r.
    - unfold encode_step at 2. simpl. rewrite IH. by rewrite app_assoc. }
  apply (Hgen []).
Qed.

Lemma toy_frame (level : Z) (chunks : list bytes) :
  @lz4_frame Toy.triple_codec level chunks = Byte.x04 :: concat chunks.
Proof.
  unfold lz4_frame. simpl. rewrite toy_body_is_input. simpl.
  by rewrite app_nil_r.
Qed.

Lemma toy_decode_seen (pieces : list bytes) :
  @lz4_decode Toy.triple_codec true pieces = Some (concat pieces).
Proof.
  induction pieces as [|p pieces IH]; simpl; [done|]. by rewrite IH.
Qed.

Lemma toy_decode_fresh (pieces : list bytes) :
  @lz4_decode Toy.triple_codec false pieces = Some (tail (concat pieces)).
Proof.
  induction pieces as [|p pieces IH]; simpl; [done|].
  destruct p as [|b p]; simpl.
  - by rewrite IH.
  - by rewrite toy_decode_seen.
Qed.

Lemma toy_codec_laws : Lz4FrameLaws Toy.triple_codec.
Proof.
  constructor.
  - intros ctx piece ctx' out more. simpl.
    destruct ctx; [by intros [= _ _ <-]|].
    destruct piece; by intros [= _ _ <-].
  - intros level chunks pieces _ _ Hframe.
    by rewrite toy_decode_fresh, Hframe, toy_frame.
Qed.

Lemma toy_hash_laws : XxHashLaws Toy.hash.
Proof.
  constructor; simpl; intros.
  - apply app_nil_r.
  - by rewrite app_assoc.
Qed.

Lemma decompress_loop_fallback_witness :
  @decompress_loop Toy.triple_codec false [[Byte.x04; Byte.x68]; [Byte.x69]]
  = [[Byte.x04; Byte.x68]; [Byte.x69]].
Proof.
  apply (@decompress_loop_fallback Toy.triple_codec).
  intros c p c' out more. simpl.
  destruct c; [by intros [= _ _ <-]|].
  destruct p; by intros [= _ _ <-].
Defined.

Lemma compressed_stream_yields_frame_witness :
  ∃ body,
    @stream_file Toy.triple_codec Toy.shipped.2 "h3Zk-Q_a" true
      = Return (body, Toy.shipped.1)
    ∧ concat body = [Byte.x04; Byte.x68; Byte.x69; Byte.x21]
    ∧ concat body ≠ content Toy.declared
    ∧ @lz4_decode Toy.triple_codec false body = Some (content Toy.declared).
Proof.
  assert (Htok : urlsafe_token "h3Zk-Q_a").
  { apply (bool_decide_unpack _). vm_compute. exact I. }
  assert (Hstore : @store_file Toy.triple_codec Toy.hash Toy.empty_relay
                     Toy.declared None true "h3Zk-Q_a" 0 0
                   = (Toy.shipped.1, Toy.shipped.2)).
  { unfold Toy.shipped. by destruct (store_file _ _ _ _ _ _ _). }
  assert (Hc : FileMetadata.compressed Toy.shipped.1 = true).
  { vm_compute. reflexivity. }
  destruct (@compressed_stream_yields_frame Toy.triple_codec Toy.hash
              toy_codec_laws toy_hash_laws _ _ _ _ _ _ _ _ _ Htok Hstore Hc)
    as (body & Hstream & Hbody & _ & Hdecode & _).
  exists body. split; [exact Hstream|].
  assert (Hframe : concat body = [Byte.x04; Byte.x68; Byte.x69; Byte.x21]).
  { rewrite Hbody, toy_frame, read_chunks_concat. reflexivity. }
  split; [exact Hframe|]. split; [|exact Hdecode].
  rewrite Hframe. discriminate.
Defined.

Lemma upload_undeclared_size_witness :
  ∃ response st',
    @upload_file Toy.codec Toy.hash Toy.empty_relay Toy.undeclared None true
      "h3Zk-Q_a" 0 0 = Return (response, st')
    ∧ disk st' !! "h3Zk-Q_a" = Some [Byte.x68; Byte.x69; Byte.x21].
Proof.
  destruct (@upload_undeclared_size Toy.codec Toy.hash Toy.empty_relay
              Toy.undeclared None true "h3Zk-Q_a" 0 0 (or_introl eq_refl))
    as (response & meta & st' & Hup & _ & _ & _ & _ & _ & Hdisk).
  exists response, st'. exact (conj Hup Hdisk).
Defined.

(** * Further properties of the code *)

(** ** Closing rooms *)

(** X3. [close_room] removes the room under the upper-cased code and sends
    one close frame, code 1000, to the socket of each member, in the order of
    the room's [peers]; closing a code that has no room changes nothing and
    sends nothing, so a repeated close is a no-op. The address counters are
    never touched. *)
Theorem close_room_twice (st : RoomManager) (c : string) :
  close_room (close_room st c).1 c = ((close_room st c).1, [])
  ∧ rooms (close_room st c).1 !! upper c = None
  ∧ (∀ k, k ≠ upper c → rooms (close_room st c).1 !! k = rooms st !! k)
  ∧ ip_connections (close_room st c).1 = ip_connections st
  ∧ (close_room st c).2 =
      match rooms st !! upper c with
      | Some room =>
          map (λ kv : string * Peer, Close (ws kv.2) 1000 "Room closed")
            (peers room)
      | None => []
      end.
Proof.
  assert (Hgone : rooms (close_room st c).1 !! upper c = None).
  { unfold close_room. destruct (rooms st !! upper c) eqn:Hl; [|done].
    simpl. apply lookup_delete_eq. }
  split; [|split; [done|]].
  - unfold close_room at 1. by rewrite Hgone.
  - unfold close_room. destruct (rooms st !! upper c) as [room|]; simpl.
    + split; [intros k Hk; by apply lookup_delete_ne|]. split; [done|].
      unfold PyDict.values. by rewrite map_map.
    + done.
Qed.

(** ** Messages that are not objects *)

(** [relay_message] on a message that is not an object: the counters are
    bumped, then [message.get] raises. *)
Lemma relay_message_not_object (room : Room) (st : RoomManager)
    (sender_id : string) (message : json) (now t0 t1 : Q) :
  (∀ m, message ≠ JObj m) →
  relay_message room st sender_id message now t0 t1
  = ({| code := code room; peers := peers room; created_at := created_at room;
        last_activity := now; message_count := message_count room + 1 |},
     {| rooms := rooms st; ip_connections := ip_connections st;
        total_messages := total_messages st + 1;
        total_connections := total_connections st;
        latencies := latencies st |},
     None).
Proof.
  intros Hobj. destruct message; try done. by destruct (Hobj m).
Qed.

(** ** The latency window *)















(** ** Rooms and their slots *)

Lemma upper_ascii_idemp (c : ascii) : upper_ascii (upper_ascii c) = upper_ascii c.
Proof. destruct c as [[] [] [] [] [] [] [] []]; reflexivity. Qed.

Lemma upper_idemp (s : string) : upper (upper s) = upper s.
Proof. induction s as [|c s IH]; simpl; [done|]. by rewrite upper_ascii_idemp, IH. Qed.

Lemma upper_alphabet (s : string) :
  Forall (λ a, a ∈ chars) (list_ascii_of_string s) → upper s = s.
Proof.
  induction s as [|c s IH]; simpl; [done|]. intros Hall.
  apply Forall_cons in Hall as [Hc Hall]. rewrite IH by done. f_equal.
  revert Hc. clear. revert c. apply Forall_forall.
  apply (bool_decide_unpack _). vm_compute. exact I.
Qed.

Lemma generate_room_code_upper st tape c :
  generate_room_code st tape = Some c → upper c = c ∧ rooms st !! c = None.
Proof.
  intros Hgen. apply generate_room_code_loop_sound in Hgen as (_ & Hall & Hfree).
  split; [by apply upper_alphabet|done].
Qed.

Lemma create_room_rooms st tape t1 t2 c st' :
  create_room st tape t1 t2 = Return (c, st') →
  upper c = c ∧ rooms st !! c = None
  ∧ st' = with_rooms (<[c := Room_init c t1 t2]> (rooms st)) st.
Proof.
  unfold create_room.
  destruct (Z.of_nat (size (rooms st)) >=? Config.MAX_ROOMS)%Z; [done|].
  destruct (generate_room_code st tape) as [c'|] eqn:Hgen; [|done].
  intros [= <- <-]. by destruct (generate_room_code_upper _ _ _ Hgen).
Qed.

Lemma close_room_rooms st c :
  rooms (close_room st c).1 = delete (upper c) (rooms st).
Proof.
  unfold close_room. destruct (rooms st !! upper c) eqn:Hl; [done|].
  simpl. by rewrite delete_id.
Qed.

Lemma slots_ok_insert st key room :
  slots_ok st → code room = key → upper key = key →
  slots_ok (with_rooms (<[key := room]> (rooms st)) st).
Proof. intros Hok Hc Hk. unfold slots_ok. simpl. by apply map_Forall_insert_2. Qed.

Lemma slots_ok_delete st key :
  slots_ok st → slots_ok (with_rooms (delete key (rooms st)) st).
Proof. intros Hok. unfold slots_ok. simpl. by apply map_Forall_delete. Qed.

Lemma slots_ok_same_rooms st st' :
  rooms st' = rooms st → slots_ok st → slots_ok st'.
Proof. unfold slots_ok. by intros ->. Qed.

Lemma create_room_slots st tape t1 t2 c st' :
  create_room st tape t1 t2 = Return (c, st') → slots_ok st → slots_ok st'.
Proof.
  intros Hc Hok. apply create_room_rooms in Hc as (Hup & _ & ->).
  by apply slots_ok_insert.
Qed.

Lemma get_room_slots st c now : slots_ok st → slots_ok (get_room st c now).2.
Proof.
  intros Hok. unfold get_room.
  destruct (rooms st !! upper c) as [room|]; [|done].
  destruct (is_expired now room); [|done]. by apply slots_ok_delete.
Qed.

Lemma close_room_slots st c : slots_ok st → slots_ok (close_room st c).1.
Proof.
  intros Hok. unfold close_room.
  destruct (rooms st !! upper c); [|done]. by apply slots_ok_delete.
Qed.

Lemma add_peer_code room st peer now :
  code (add_peer room st peer now).1.1 = code room.
Proof.
  unfold add_peer. by destruct (dd_read (ip_address peer) (ip_connections st)).
Qed.

Lemma ws_join_slots st w ip rc pid host token clk key room :
  slots_ok st → code room = key → upper key = key →
  slots_ok (ws_join st w ip rc pid host token clk key room).1.1.
Proof.
  intros Hok Hcode Hkey. unfold ws_join.
  destruct (Config.MAX_PEERS_PER_ROOM <=? peer_count room)%nat; [done|].
  match goal with
  | |- context [add_peer ?r ?s ?p ?t] =>
      destruct (add_peer_shape r s p t) as [_ Hr];
      pose proof (add_peer_code r s p t) as Hc;
      destruct (add_peer r s p t) as [[room' st1] fs]
  end.
  simpl in *. apply slots_ok_insert; [|congruence|done].
  by apply (slots_ok_same_rooms st).
Qed.

Lemma ws_admit_slots st w ip rc pid host tape token clk :
  slots_ok st → slots_ok (ws_admit st w ip rc pid host tape token clk).1.1.
Proof.
  intros Hok. unfold ws_admit.
  pose proof (get_room_slots st (upper rc) (t_lookup clk) Hok) as Hok1.
  pose proof (get_room_found st (upper rc) (t_lookup clk)) as Hfound.
  destruct (get_room st (upper rc) (t_lookup clk)) as [found st1].
  simpl in Hok1, Hfound. destruct found as [room|].
  { destruct (Hok1 _ _ (Hfound room eq_refl)). by apply ws_join_slots. }
  destruct (String.eqb (lower host) "true"); [|done].
  destruct (create_room st1 tape (t_created clk) (t_activity clk))
    as [[c st2]| |] eqn:Hc; [|done|done].
  pose proof (create_room_slots _ _ _ _ _ _ Hc Hok1) as Hok2.
  destruct (rooms st2 !! upper rc) as [old|] eqn:Hold.
  - rewrite Hold. destruct (Hok2 _ _ Hold). by apply ws_join_slots.
  - destruct (rooms st2 !! c) as [fresh|] eqn:Hfresh; [|done].
    assert (Hok3 : slots_ok (with_rooms (<[upper rc := with_code (upper rc) fresh]>
                                          (delete c (rooms st2))) st2)).
    { unfold slots_ok. simpl. apply map_Forall_insert_2.
      - split; [done|apply upper_idemp].
      - by apply map_Forall_delete. }
    simpl. rewrite lookup_insert_eq.
    apply ws_join_slots; [done|done|apply upper_idemp].
Qed.

Lemma relay_message_code room st sender_id message now t0 t1 :
  code (relay_message room st sender_id message now t0 t1).1.1 = code room.
Proof.
  unfold relay_message. destruct message; try done. simpl.
  by destruct (relay_loop _ _ _ _).
Qed.

Lemma remove_peer_slots st key room pid :
  slots_ok st → code room = key → upper key = key →
  slots_ok (remove_peer st key room pid).1.
Proof.
  intros Hok Hcode Hkey. unfold remove_peer.
  destruct (PyDict.get pid (peers room)) as [peer|]; [|done].
  destruct (dd_read (ip_address peer) (ip_connections st)) as [n ips].
  match goal with
  | |- context [with_rooms (<[key := ?r]> _) ?s] =>
      assert (Hok1 : slots_ok (with_rooms (<[key := r]> (rooms st)) s))
  end.
  { unfold slots_ok. simpl. by apply map_Forall_insert_2. }
  destruct (peer_count _ =? 0)%nat; [|done].
  match goal with
  | |- context [close_room ?s ?c] =>
      pose proof (close_room_slots s c Hok1); destruct (close_room s c)
  end.
  done.
Qed.

Lemma ws_finally_slots st rc pid now :
  slots_ok st → slots_ok (ws_finally st rc pid now).1.
Proof.
  intros Hok. unfold ws_finally.
  pose proof (get_room_slots st rc now Hok) as Hok1.
  pose proof (get_room_found st rc now) as Hfound.
  destruct (get_room st rc now) as [[room|] st1]; [|done].
  simpl in *. destruct (Hok1 _ _ (Hfound room eq_refl)).
  by apply remove_peer_slots.
Qed.

Lemma cleanup_sweep_slots st now : slots_ok st → slots_ok (cleanup_sweep st now).1.
Proof.
  unfold cleanup_sweep.
  generalize (map fst (filter (λ kv, is_expired now kv.2 = true)
                         (map_to_list (rooms st)))).
  intros expired. generalize (@nil frame). revert st.
  induction expired as [|c expired IH]; intros st fs Hok; [done|].
  simpl. pose proof (close_room_slots st c Hok) as Hok1.
  destruct (close_room st c) as [st1 fs1]. by apply IH.
Qed.

Lemma step_slots st st' : step st st' → slots_ok st → slots_ok st'.
Proof.
  intros Hstep Hok. destruct Hstep.
  - by eapply create_room_slots.
  - pose proof (get_room_slots st c now Hok) as Hg. by rewrite H in Hg.
  - apply (slots_ok_same_rooms st); [|done].
    pose proof (check_ip_limit_rooms st ip) as Hr. by rewrite H in Hr.
  - pose proof (ws_admit_slots st w ip rc pid host tape token clk Hok) as Ha.
    by rewrite H in Ha.
  - unfold ws_receive in H.
    destruct (rooms st !! key) as [room|] eqn:Hroom; [|done].
    destruct (PyDict.get pid (peers room)) as [peer|]; [|done].
    destruct (check_rate_limit t_limit peer) as [[] peer'].
    + match type of H with
      | context [relay_message ?r ?s ?p ?m ?a ?b ?c] =>
          destruct (relay_message_shape r s p m a b c) as [_ Hr];
          pose proof (relay_message_code r s p m a b c) as Hc;
          destruct (relay_message r s p m a b c) as [[room2 st2] sent]
      end.
      injection H as <- _ _. simpl in *. destruct (Hok _ _ Hroom).
      apply slots_ok_insert; [|congruence|done].
      by apply (slots_ok_same_rooms st).
    + by injection H as <- _ _.
  - destruct (relay_message_shape room st pid message now t0 t1) as [_ Hr].
    pose proof (relay_message_code room st pid message now t0 t1) as Hc.
    rewrite H0 in Hr, Hc. simpl in *. destruct (Hok _ _ H).
    apply slots_ok_insert; [|congruence|done].
    by apply (slots_ok_same_rooms st).
  - destruct (relay_message_shape room st pid message now t0 t1) as [_ Hr].
    rewrite H in Hr. by apply (slots_ok_same_rooms st).
  - pose proof (ws_finally_slots st rc pid now Hok) as Hf. by rewrite H in Hf.
  - pose proof (close_room_slots st c Hok) as Hc. by rewrite H in Hc.
  - pose proof (cleanup_sweep_slots st now Hok) as Hs. by rewrite H in Hs.
Qed.

Lemma reachable_slots st : reachable st → slots_ok st.
Proof.
  unfold reachable. intros Hr.
  apply (rtc_ind_r (R := step) (λ s, slots_ok s) RoomManager_init);
    [apply map_Forall_empty| |exact Hr].
  intros st1 st2 _ Hstep IH. by apply (step_slots st1).
Qed.

(** X7. In every state the server reaches, each active room sits in the
    registry slot of its own [code], and that slot is in upper case: the
    rename of the host branch sets [code] to the slot it moves the room to,
    and every lookup and close upper-cases its argument. So [close_room] of
    a room's code and [get_room] of any spelling of it address that room. *)
Theorem rooms_sit_under_their_code (st : RoomManager) (key : string)
    (room : Room) :
  reachable st →
  rooms st !! key = Some room →
  code room = key ∧ upper key = key
  ∧ rooms st !! upper (code room) = Some room.
Proof.
  intros Hr Hroom.
  destruct (reachable_slots st Hr key room Hroom) as [Hc Hk].
  by rewrite Hc, Hk.
Qed.

Lemma rooms_sit_under_their_code_witness :
  upper "AB23CD" = "AB23CD".
Proof.
  assert (Hroom : rooms Run.hosted !! "AB23CD"
                  = Some {| code := "AB23CD";
                            peers := [("alice", Demo.alice)];
                            created_at := 0; last_activity := 0;
                            message_count := 0 |})
    by (vm_compute; reflexivity).
  destruct (rooms_sit_under_their_code Run.hosted "AB23CD" _
              reachable_hosted Hroom) as (_ & Hk & _).
  exact Hk.
Defined.

(** ** The room janitor *)

Lemma sweep_fold_rooms (expired : list string) st fs :
  Forall (λ c, upper c = c) expired →
  ∀ k,
    rooms (foldl (λ acc c, let '(st', fs') := close_room acc.1 c in
                           (st', acc.2 ++ fs'))
             (st, fs) expired).1 !! k
    = if decide (k ∈ expired) then None else rooms st !! k.
Proof.
  revert st fs. induction expired as [|c expired IH]; intros st fs Hup k.
  - cbn [foldl fst]. destruct (decide (k ∈ [])) as [Hin|]; [|done].
    by apply elem_of_nil in Hin.
  - apply Forall_cons in Hup as [Hc Hup]. cbn [foldl fst snd].
    pose proof (close_room_rooms st c) as Hrooms. rewrite Hc in Hrooms.
    destruct (close_room st c) as [st1 fs1]. cbn [fst] in Hrooms.
    rewrite IH by done. rewrite Hrooms.
    destruct (decide (k ∈ expired)) as [Hin|Hnin];
      destruct (decide (k ∈ c :: expired)) as [Hin'|Hnin']; try done.
    + exfalso. apply Hnin'. by right.
    + apply elem_of_cons in Hin' as [->|?]; [|done]. apply lookup_delete_eq.
    + apply lookup_delete_ne. intros <-. apply Hnin'. left.
Qed.

(** X8. One sweep of the room janitor, run in any state the server reaches,
    removes every room that is expired at the time of the sweep and no
    other: what is left of the registry is its unexpired rooms, unchanged. *)
Theorem cleanup_sweep_reaps_expired (st : RoomManager) (now : Q) :
  reachable st →
  rooms (cleanup_sweep st now).1
  = filter (λ kv, is_expired now kv.2 = false) (rooms st).
Proof.
  intros Hr. pose proof (reachable_slots st Hr) as Hok.
  apply map_eq. intros k. unfold cleanup_sweep.
  rewrite sweep_fold_rooms.
  - destruct (decide (k ∈ _)) as [Hin|Hnin].
    + symmetry. apply map_lookup_filter_None. right. intros room Hroom.
      apply list_elem_of_fmap in Hin as ([k' room'] & -> & Hin).
      apply list_elem_of_filter in Hin as [Hexp Hin].
      apply elem_of_map_to_list in Hin. simpl in *.
      assert (room' = room) as -> by congruence. congruence.
    + destruct (rooms st !! k) as [room|] eqn:Hroom.
      * symmetry. apply map_lookup_filter_Some. split; [done|]. simpl.
        destruct (is_expired now room) eqn:Hexp; [|done].
        exfalso. apply Hnin. apply list_elem_of_fmap. exists (k, room).
        split; [done|]. apply list_elem_of_filter. split; [done|].
        by apply elem_of_map_to_list.
      * symmetry. apply map_lookup_filter_None. by left.
  - apply Forall_forall. intros c Hc.
    apply list_elem_of_fmap in Hc as ([k' room'] & -> & Hin).
    apply list_elem_of_filter in Hin as [_ Hin].
    apply elem_of_map_to_list in Hin. by destruct (Hok _ _ Hin).
Qed.

Lemma cleanup_sweep_reaps_expired_witness :
  rooms (cleanup_sweep Run.hosted Run.late).1
  = filter (λ kv, is_expired Run.late kv.2 = false) (rooms Run.hosted).
Proof.
  exact (cleanup_sweep_reaps_expired Run.hosted Run.late reachable_hosted).
Defined.

(** ** A peer leaves *)

Lemma dd_read_counted (a : string) (st : RoomManager) :
  (dd_read a (ip_connections st)).1 = counted a st.
Proof.
  unfold dd_read, counted. by destruct (ip_connections st !! a).
Qed.

(** X9. The [finally] block of a handler, run in a state the server reaches
    for a peer that is in the live room under [key]: the peer is taken out
    of the room and its address counter goes down by one, not below zero;
    every remaining member is sent [peer-left] with the new count; and when
    nobody remains the room is removed from the registry, with no frame
    sent. *)
Theorem ws_finally_departure (st : RoomManager) (key pid : string)
    (room : Room) (peer : Peer) (now : Q) :
  reachable st →
  rooms st !! key = Some room →
  PyDict.get pid (peers room) = Some peer →
  is_expired now room = false →
  rooms (ws_finally st key pid now).1
  = match PyDict.remove pid (peers room) with
    | [] => delete key (rooms st)
    | rest => <[key := with_peers rest room]> (rooms st)
    end
  ∧ (ws_finally st key pid now).2
    = map (λ kv : string * Peer,
             Send (ws kv.2)
               (JObj [("type", JStr "peer-left"); ("peerId", JStr pid);
                      ("peerCount",
                       jnat (List.length (PyDict.remove pid (peers room))))]))
        (PyDict.remove pid (peers room))
  ∧ ip_connections (ws_finally st key pid now).1 !! ip_address peer
    = Some (Z.max 0 (counted (ip_address peer) st - 1)).
Proof.
  intros Hr Hroom Hget Hlive.
  destruct (reachable_slots st Hr key room Hroom) as [Hcode Hkey].
  unfold ws_finally, get_room. rewrite Hkey, Hroom, Hlive.
  unfold remove_peer. rewrite Hget.
  pose proof (dd_read_counted (ip_address peer) st) as Hn.
  destruct (dd_read (ip_address peer) (ip_connections st)) as [n ips].
  simpl in Hn. subst n. unfold peer_count. cbn [peers with_peers].
  destruct (PyDict.remove pid (peers room)) as [|kv rest] eqn:Hrest.
  - cbn [List.length Nat.eqb]. unfold close_room. cbn [code with_peers].
    rewrite Hcode, Hkey. cbn [rooms with_rooms]. rewrite lookup_insert_eq.
    cbn [fst snd rooms with_rooms ip_connections with_ip_connections].
    rewrite delete_insert_eq. split; [done|]. split; [done|].
    apply lookup_insert_eq.
  - cbn [List.length Nat.eqb fst snd rooms with_rooms ip_connections
         with_ip_connections].
    split; [done|]. split; [|apply lookup_insert_eq].
    unfold PyDict.values. by rewrite map_map.
Qed.

Lemma ws_finally_departure_witness :
  rooms (ws_finally Run.hosted "AB23CD" "alice" 0).1
  = delete "AB23CD" (rooms Run.hosted).
Proof.
  assert (Hroom : rooms Run.hosted !! "AB23CD"
                  = Some {| code := "AB23CD";
                            peers := [("alice", Demo.alice)];
                            created_at := 0; last_activity := 0;
                            message_count := 0 |})
    by (vm_compute; reflexivity).
  assert (Hlive : is_expired 0 {| code := "AB23CD";
                                  peers := [("alice", Demo.alice)];
                                  created_at := 0; last_activity := 0;
                                  message_count := 0 |} = false)
    by (vm_compute; reflexivity).
  exact (proj1 (ws_finally_departure Run.hosted "AB23CD" "alice" _ Demo.alice 0
                  reachable_hosted Hroom eq_refl Hlive)).
Defined.

(** ** Admission *)

Lemma get_room_none st c now :
  (get_room st c now).1 = None → rooms (get_room st c now).2 !! upper c = None.
Proof.
  unfold get_room. destruct (rooms st !! upper c) as [room|] eqn:Hl; [|done].
  destruct (is_expired now room); [|done]. intros _. apply lookup_delete_eq.
Qed.

Lemma get_room_counters st c now :
  ip_connections (get_room st c now).2 = ip_connections st
  ∧ total_connections (get_room st c now).2 = total_connections st.
Proof.
  unfold get_room. destruct (rooms st !! upper c) as [room|]; [|done].
  by destruct (is_expired now room).
Qed.

Lemma ws_join_first st w ip rc pid host token clk t1 t2 :
  let me :=
    Peer_init w (match pid with
                 | Some s => if String.eqb s "" then token else s
                 | None => token
                 end) host rc ip (t_connected clk) in
  let res := ws_join st w ip rc pid host token clk rc (Room_init rc t1 t2) in
  res.2 = Joined rc me
  ∧ rooms res.1.1
    = <[rc := {| code := rc; peers := [(peer_id me, me)]; created_at := t1;
                 last_activity := t_joined clk; message_count := 0 |}]>
        (rooms st)
  ∧ res.1.2
    = [Send w (JObj [("type", JStr "room-joined"); ("roomCode", JStr rc);
                     ("peerId", JStr (peer_id me)); ("isHost", JBool host);
                     ("peerCount", jnat 1); ("peers", JArr [])])]
  ∧ ip_connections res.1.1
    = <[ip := ((dd_read ip (ip_connections st)).1 + 1)%Z]>
        (dd_read ip (ip_connections st)).2
  ∧ total_connections res.1.1 = (total_connections st + 1)%Z.
Proof.
  intros me res. subst res. unfold ws_join, add_peer. fold me.
  cbn [peer_count Room_init peers List.length Nat.leb Config.MAX_PEERS_PER_ROOM].
  change (ip_address me) with ip.
  destruct (dd_read ip (ip_connections st)) as [n ips].
  cbn [fst snd rooms with_rooms PyDict.set code created_at message_count peers].
  rewrite filter_cons_False by (cbn [fst]; rewrite String.eqb_refl; done).
  rewrite filter_nil. done.
Qed.

(** X10. A host that asks for a code no room holds gets a room under that
    code, upper-cased, whatever code [create_room] drew for it: the room is
    stored in the requested slot with the host as its only member, the drawn
    code is not left behind in the registry, no other slot changes, and the
    only frame is the [room-joined] acknowledgement to the host. *)
Theorem host_opens_requested_code (st : RoomManager) (w : WebSocket)
    (ip rc : string) (pid : option string) (host : string) (tape : list nat)
    (token : string) (clk : admit_clock) (c : string) (st2 : RoomManager) :
  rooms st !! upper rc = None →
  String.eqb (lower host) "true" = true →
  create_room st tape (t_created clk) (t_activity clk) = Return (c, st2) →
  let me :=
    Peer_init w (match pid with
                 | Some s => if String.eqb s "" then token else s
                 | None => token
                 end) true (upper rc) ip (t_connected clk) in
  let room :=
    {| code := upper rc; peers := [(peer_id me, me)];
       created_at := t_created clk; last_activity := t_joined clk;
       message_count := 0 |} in
  let res := ws_admit st w ip rc pid host tape token clk in
  res.2 = Joined (upper rc) me
  ∧ rooms res.1.1 = <[upper rc := room]> (rooms st)
  ∧ (c ≠ upper rc → rooms res.1.1 !! c = None)
  ∧ res.1.2
    = [Send w (JObj [("type", JStr "room-joined");
                     ("roomCode", JStr (upper rc));
                     ("peerId", JStr (peer_id me));
                     ("isHost", JBool true);
                     ("peerCount", jnat 1);
                     ("peers", JArr [])])].
Proof.
  intros Hfree Hhost Hcreate me room res. subst res.
  destruct (create_room_rooms _ _ _ _ _ _ Hcreate) as (Hup & Hc & Hst2).
  unfold ws_admit, get_room. rewrite upper_idemp, Hfree, Hhost, Hcreate.
  subst st2. cbn [rooms with_rooms].
  destruct (decide (c = upper rc)) as [->|Hne].
  - rewrite lookup_insert_eq. cbn [rooms with_rooms]. rewrite lookup_insert_eq.
    destruct (ws_join_first
                (with_rooms (<[upper rc := Room_init (upper rc) (t_created clk)
                                             (t_activity clk)]> (rooms st)) st)
                w ip (upper rc) pid true token clk (t_created clk)
                (t_activity clk)) as (Hres & Hrooms & Hfs & _).
    split; [exact Hres|]. split; [|split; [done|exact Hfs]].
    rewrite Hrooms. cbn [rooms with_rooms]. apply insert_insert_eq.
  - rewrite lookup_insert_ne, Hfree by done. rewrite lookup_insert_eq.
    cbn [rooms with_rooms]. rewrite lookup_insert_eq.
    rewrite delete_insert_eq, (delete_id _ _ Hc).
    change (with_code (upper rc) (Room_init c (t_created clk) (t_activity clk)))
      with (Room_init (upper rc) (t_created clk) (t_activity clk)).
    match goal with
    | |- context [ws_join ?s _ _ _ _ _ _ _ _ _] =>
        destruct (ws_join_first s w ip (upper rc) pid true token clk
                    (t_created clk) (t_activity clk))
          as (Hres & Hrooms & Hfs & _)
    end.
    split; [exact Hres|]. split; [|split; [|exact Hfs]].
    + rewrite Hrooms. cbn [rooms with_rooms]. apply insert_insert_eq.
    + intros _. rewrite Hrooms. cbn [rooms with_rooms].
      rewrite insert_insert_eq. by rewrite lookup_insert_ne.
Qed.

Lemma host_opens_requested_code_witness :
  (ws_admit Run.checked 1 "10.0.0.1" "ab23cd" (Some "alice") "true" Run.tape
     "tok" Run.clk0).2
  = Joined "AB23CD" (Peer_init 1 "alice" true "AB23CD" "10.0.0.1" 0).
Proof.
  assert (Hfree : rooms Run.checked !! upper "ab23cd" = None)
    by (vm_compute; reflexivity).
  assert (Hhost : String.eqb (lower "true") "true" = true)
    by (vm_compute; reflexivity).
  assert (Hcreate :
    create_room Run.checked Run.tape (t_created Run.clk0) (t_activity Run.clk0)
    = Return ("ABCDEF",
              with_rooms (<["ABCDEF" := Room_init "ABCDEF" 0 0]>
                            (rooms Run.checked)) Run.checked))
    by (vm_compute; reflexivity).
  exact (proj1 (host_opens_requested_code Run.checked 1 "10.0.0.1" "ab23cd"
                  (Some "alice") "true" Run.tape "tok" Run.clk0 _ _
                  Hfree Hhost Hcreate)).
Defined.

(** X11. Every refusal of [ws_admit] is one of two. Code 4003: the live
    room under the upper-cased code already holds [MAX_PEERS_PER_ROOM] peers
    or more. Code 4004: no live room is under the code and the request is
    not a host's. In both the socket gets one error frame and is closed, and
    the registry is left as the lookup left it: no peer is added, no address
    is counted, no connection is recorded. *)
Theorem refused_admission (st : RoomManager) (w : WebSocket)
    (ip rc : string) (pid : option string) (host : string) (tape : list nat)
    (token : string) (clk : admit_clock) (st' : RoomManager)
    (fs : list frame) (close_code : Z) :
  ws_admit st w ip rc pid host tape token clk = (st', fs, Refused close_code) →
  let looked := get_room st (upper rc) (t_lookup clk) in
  st' = looked.2
  ∧ ip_connections st' = ip_connections st
  ∧ total_connections st' = total_connections st
  ∧ ((close_code = 4003%Z
      ∧ fs = [error_frame w "Room is full"; Close w 4003 "Room full"]
      ∧ ∃ room, looked.1 = Some room
                ∧ (Config.MAX_PEERS_PER_ROOM ≤ peer_count room)%nat)
     ∨ (close_code = 4004%Z
        ∧ fs = [error_frame w "Room not found"; Close w 4004 "Room not found"]
        ∧ looked.1 = None
        ∧ String.eqb (lower host) "true" = false)).
Proof.
  intros Hadmit looked. subst looked.
  destruct (get_room_counters st (upper rc) (t_lookup clk)) as [Hip Htot].
  pose proof (get_room_none st (upper rc) (t_lookup clk)) as Hnone.
  revert Hadmit. unfold ws_admit.
  destruct (get_room st (upper rc) (t_lookup clk)) as [found st1].
  cbn [fst snd] in *.
  assert (Hjoin : ∀ st3 key room,
    (peer_count room < Config.MAX_PEERS_PER_ROOM)%nat →
    ws_join st3 w ip (upper rc) pid (String.eqb (lower host) "true") token clk
      key room ≠ (st', fs, Refused close_code)).
  { intros st3 key room Hlt. unfold ws_join.
    destruct (Nat.leb_spec Config.MAX_PEERS_PER_ROOM (peer_count room)); [lia|].
    by destruct (add_peer _ _ _ _) as [[room' st4] fs']. }
  destruct found as [room|].
  - unfold ws_join.
    destruct (Nat.leb_spec Config.MAX_PEERS_PER_ROOM (peer_count room)) as [Hfull|].
    + intros [= <- <- <-]. split; [done|]. split; [done|]. split; [done|].
      left. split; [done|]. split; [done|]. by exists room.
    + by destruct (add_peer _ _ _ _) as [[room' st4] fs'].
  - specialize (Hnone eq_refl). rewrite upper_idemp in Hnone.
    destruct (String.eqb (lower host) "true") eqn:Hhost.
    + destruct (create_room st1 tape (t_created clk) (t_activity clk))
        as [[c st2]| |] eqn:Hc; [|done|done].
      apply create_room_rooms in Hc as (Hup & Hfree & ->).
      cbn [rooms with_rooms].
      destruct (decide (c = upper rc)) as [->|Hne].
      * rewrite lookup_insert_eq. cbn [rooms with_rooms].
        rewrite lookup_insert_eq. intros Hbad. exfalso.
        revert Hbad. apply Hjoin.
        unfold peer_count, Config.MAX_PEERS_PER_ROOM. simpl. lia.
      * rewrite lookup_insert_ne, Hnone by done. rewrite lookup_insert_eq.
        cbn [rooms with_rooms]. rewrite lookup_insert_eq.
        intros Hbad. exfalso. revert Hbad. apply Hjoin.
        unfold peer_count, Config.MAX_PEERS_PER_ROOM. simpl. lia.
    + intros [= <- <- <-]. split; [done|]. split; [done|]. split; [done|].
      right. done.
Qed.

Lemma refused_admission_witness :
  (ws_admit Run.two_hosts 3 "10.0.0.3" "ab23cd" (Some "carol") "false" []
     "tok" Run.clk0).1.1
  = (get_room Run.two_hosts (upper "ab23cd") (t_lookup Run.clk0)).2.
Proof.
  assert (Hadmit :
    ws_admit Run.two_hosts 3 "10.0.0.3" "ab23cd" (Some "carol") "false" []
      "tok" Run.clk0
    = ((ws_admit Run.two_hosts 3 "10.0.0.3" "ab23cd" (Some "carol") "false" []
          "tok" Run.clk0).1.1,
       [error_frame 3 "Room is full"; Close 3 4003 "Room full"],
       Refused 4003))
    by (vm_compute; reflexivity).
  exact (proj1 (refused_admission _ _ _ _ _ _ _ _ _ _ _ _ Hadmit)).
Defined.

(** ** Relay store: streaming as stored *)

Lemma read_loop_bounded fuel n (data : bytes) :
  Forall (λ c, (List.length c ≤ n)%nat) (read_loop fuel n data).
Proof.
  revert data. induction fuel as [|fuel IH]; intros data; cbn [read_loop]; [done|].
  destruct (take n data) as [|b chunk] eqn:Htake; [done|].
  constructor; [|apply IH]. rewrite <- Htake, length_take. lia.
Qed.

Lemma read_chunks_shape (n : nat) (data : bytes) :
  Forall (λ c, c ≠ [] ∧ (List.length c ≤ n)%nat) (read_chunks n data).
Proof.
  apply Forall_and. split; [apply read_loop_nonempty|apply read_loop_bounded].
Qed.

Section streaming.
Context `{Lz4Frame} `{XxHash}.

(** X12. Whenever [stream_file] answers without decompressing, because the
    file was stored raw or because the caller passed [decompress=false], the
    body is the on-disk object of the file as it is, cut into non-empty
    chunks of at most [CHUNK_SIZE] bytes, and the metadata is the entry of
    the file. *)
Theorem stream_file_verbatim (st : FileRelay) (file_id : string)
    (decompress : bool) (body : list bytes) (meta : FileMetadata.t) :
  stream_file st file_id decompress = Return (body, meta) →
  FileMetadata.compressed meta && decompress = false →
  files st !! file_id = Some meta
  ∧ disk st !! stored_name file_id meta = Some (concat body)
  ∧ Forall (λ c, c ≠ [] ∧ (List.length c ≤ chunk_size)%nat) body.
Proof.
  unfold stream_file, stored_name.
  pose proof chunk_size_pos as Hn. revert Hn. generalize chunk_size.
  intros n Hn.
  destruct (files st !! file_id) as [meta'|]; [|done].
  destruct (disk st !! (if FileMetadata.compressed meta'
                        then String.append file_id ".lz4" else file_id))
    as [data|] eqn:Hdisk; [|done].
  destruct (FileMetadata.compressed meta' && decompress) eqn:Hmode.
  - intros [= _ <-] Hplain. congruence.
  - intros [= <- <-] _. split; [done|]. split.
    + by rewrite read_chunks_concat_at.
    + apply read_chunks_shape.
Qed.

(** X13. A file stored on the raw path comes back from [stream_file] as the
    bytes that were uploaded, whatever the [decompress] flag, in non-empty
    chunks of at most [CHUNK_SIZE] bytes. Its recorded size and original
    size are the length of the content, the checksum is the xxh64 hex digest
    of the content, and [total_bytes_relayed] has grown by that length. *)
Theorem raw_round_trip `{!XxHashLaws _} (st : FileRelay) (file : UploadFile)
    (room_code : option string) (compress decompress : bool)
    (file_id : string) (t1 t2 : Q) (meta : FileMetadata.t) (st' : FileRelay) :
  store_file st file room_code compress file_id t1 t2 = (meta, st') →
  FileMetadata.compressed meta = false →
  ∃ body,
    stream_file st' file_id decompress = Return (body, meta)
    ∧ concat body = content file
    ∧ Forall (λ c, c ≠ [] ∧ (List.length c ≤ chunk_size)%nat) body
    ∧ FileMetadata.size meta = Z.of_nat (List.length (content file))
    ∧ FileMetadata.original_size meta
      = Some (Z.of_nat (List.length (content file)))
    ∧ FileMetadata.checksum meta = Some (xxh64_hexdigest (content file))
    ∧ total_bytes_relayed st'
      = (total_bytes_relayed st + Z.of_nat (List.length (content file)))%Z.
Proof.
  intros Hstore Hc.
  unfold store_file in Hstore. unfold stream_file.
  pose proof chunk_size_pos as Hn. revert Hstore Hn.
  generalize chunk_size. intros n Hstore Hn.
  pose proof (λ data, read_chunks_concat_at n data Hn) as Hread.
  destruct (compress && declared_over (declared_size file)
                          Config.MIN_COMPRESS_SIZE) eqn:Hpath.
  - rewrite ingest_compressed_frame in Hstore.
    cbv beta iota zeta in Hstore.
    apply pair_equal_spec in Hstore as [<- _].
    cbn [FileMetadata.compressed] in Hc. discriminate Hc.
  - unfold ingest_raw in Hstore. rewrite foldl_raw_step in Hstore.
    cbv beta iota zeta in Hstore.
    apply pair_equal_spec in Hstore as [<- <-].
    cbn [files disk FileMetadata.compressed total_bytes_relayed].
    rewrite lookup_insert_eq. cbn [FileMetadata.compressed].
    rewrite lookup_insert_eq. cbn [andb].
    eexists. split; [reflexivity|].
    cbn [FileMetadata.checksum FileMetadata.original_size FileMetadata.size].
    unfold xxh64_hexdigest.
    rewrite foldl_update_concat, !Hread.
    split; [done|]. split; [apply read_chunks_shape|].
    rewrite app_nil_l, Z.add_0_l. done.
Qed.

(** X14. Storing a file under an id that is not in use and deleting it again
    leaves the table of files and the upload directory as they were; only
    [total_bytes_relayed] keeps the bytes counted. After that the id streams
    as 404. The id is a [token_urlsafe] token. *)
Theorem store_then_delete (st : FileRelay) (file : UploadFile)
    (room_code : option string) (compress decompress : bool)
    (file_id : string) (t1 t2 : Q) :
  urlsafe_token file_id →
  files st !! file_id = None →
  disk st !! file_id = None →
  disk st !! String.append file_id ".lz4" = None →
  let st1 := (store_file st file room_code compress file_id t1 t2).2 in
  let st2 := delete_file st1 file_id false in
  files st2 = files st
  ∧ disk st2 = disk st
  ∧ (total_bytes_relayed st ≤ total_bytes_relayed st2)%Z
  ∧ stream_file st2 file_id decompress = HTTPException 404 "File not found".
Proof.
  intros Htok Hfiles Hraw Hlz4 st1 st2. subst st1 st2.
  unfold store_file. generalize chunk_size. intros n.
  rewrite with_suffix_urlsafe by done.
  destruct (compress && declared_over (declared_size file)
                          Config.MIN_COMPRESS_SIZE) eqn:Hpath.
  - rewrite ingest_compressed_frame. cbv beta iota zeta. cbn [snd].
    unfold delete_file, stream_file. cbn [files disk total_bytes_relayed].
    rewrite lookup_insert_eq. cbn [FileMetadata.compressed files disk
                                     total_bytes_relayed].
    rewrite !delete_insert_eq, !delete_id by done.
    rewrite Hfiles. repeat split; lia.
  - unfold ingest_raw. rewrite foldl_raw_step. cbv beta iota zeta. cbn [snd].
    unfold delete_file, stream_file. cbn [files disk total_bytes_relayed].
    rewrite lookup_insert_eq. cbn [FileMetadata.compressed files disk
                                     total_bytes_relayed].
    rewrite !delete_insert_eq, !delete_id by done.
    rewrite Hfiles. repeat split; lia.
Qed.
End streaming.

Lemma stream_file_verbatim_witness :
  disk Toy.stored.2 !! stored_name "h3Zk-Q_a" Toy.stored.1
  = Some (concat [[Byte.x04; Byte.x68; Byte.x69; Byte.x21]]).
Proof.
  assert (Hstream :
    @stream_file Toy.codec Toy.stored.2 "h3Zk-Q_a" false
    = Return ([[Byte.x04; Byte.x68; Byte.x69; Byte.x21]], Toy.stored.1))
    by (vm_compute; reflexivity).
  assert (Hmode : FileMetadata.compressed Toy.stored.1 && false = false)
    by (vm_compute; reflexivity).
  exact (proj1 (proj2 (@stream_file_verbatim Toy.codec Toy.stored.2 "h3Zk-Q_a"
                         false _ _ Hstream Hmode))).
Defined.

Lemma raw_round_trip_witness :
  ∃ body,
    @stream_file Toy.codec
      (@store_file Toy.codec Toy.hash Toy.empty_relay Toy.undeclared None true
         "h3Zk-Q_a" 0 0).2 "h3Zk-Q_a" true
    = Return (body,
              (@store_file Toy.codec Toy.hash Toy.empty_relay Toy.undeclared
                 None true "h3Zk-Q_a" 0 0).1)
    ∧ concat body = [Byte.x68; Byte.x69; Byte.x21].
Proof.
  assert (Hstore :
    @store_file Toy.codec Toy.hash Toy.empty_relay Toy.undeclared None true
      "h3Zk-Q_a" 0 0
    = ((@store_file Toy.codec Toy.hash Toy.empty_relay Toy.undeclared None true
          "h3Zk-Q_a" 0 0).1,
       (@store_file Toy.codec Toy.hash Toy.empty_relay Toy.undeclared None true
          "h3Zk-Q_a" 0 0).2)).
  { by destruct (store_file _ _ _ _ _ _ _). }
  assert (Hc : FileMetadata.compressed
                 (@store_file Toy.codec Toy.hash Toy.empty_relay Toy.undeclared
                    None true "h3Zk-Q_a" 0 0).1 = false).
  { vm_compute. reflexivity. }
  destruct (@raw_round_trip Toy.codec Toy.hash toy_hash_laws _ _ _ _ true _ _ _
              _ _ Hstore Hc) as (body & Hstream & Hbody & _).
  exists body. exact (conj Hstream Hbody).
Defined.

Lemma store_then_delete_witness :
  files (delete_file Toy.stored.2 "h3Zk-Q_a" false) = files Toy.empty_relay.
Proof.
  assert (Htok : urlsafe_token "h3Zk-Q_a").
  { apply (bool_decide_unpack _). vm_compute. exact I. }
  exact (proj1 (@store_then_delete Toy.codec Toy.hash Toy.empty_relay
                  Toy.declared None true true "h3Zk-Q_a" 0 0 Htok
                  eq_refl eq_refl eq_refl)).
Defined.

(** ** The file janitor *)

(** Dropping from a table the keys whose entry satisfies [p] leaves the
    entries that do not. *)
Lemma lookup_unless_listed {A : Type} (p : A → bool) (m : gmap string A)
    (k : string) :
  (if decide (k ∈ map fst (filter (λ kv, p kv.2 = true) (map_to_list m)))
   then None else m !! k)
  = filter (λ kv, p kv.2 = false) m !! k.
Proof.
  destruct (decide (k ∈ _)) as [Hin|Hnin].
  - symmetry. apply map_lookup_filter_None. right. intros x Hx.
    apply list_elem_of_fmap in Hin as ([k' x'] & -> & Hin).
    apply list_elem_of_filter in Hin as [Hp Hin].
    apply elem_of_map_to_list in Hin. simpl in *.
    assert (x' = x) as -> by congruence. congruence.
  - destruct (m !! k) as [x|] eqn:Hx.
    + symmetry. apply map_lookup_filter_Some. split; [done|]. simpl.
      destruct (p x) eqn:Hp; [|done].
      exfalso. apply Hnin. apply list_elem_of_fmap. exists (k, x).
      split; [done|]. apply list_elem_of_filter. split; [done|].
      by apply elem_of_map_to_list.
    + symmetry. apply map_lookup_filter_None. by left.
Qed.

Lemma delete_file_files st fid fails :
  files (delete_file st fid fails) = delete fid (files st).
Proof.
  unfold delete_file. destruct (files st !! fid) eqn:Hl; [done|].
  by rewrite delete_id.
Qed.

Lemma delete_file_total st fid fails :
  total_bytes_relayed (delete_file st fid fails) = total_bytes_relayed st.
Proof. unfold delete_file. by destruct (files st !! fid). Qed.

Lemma delete_file_disk_shrinks st fid fails (p : string) :
  disk st !! p = None → disk (delete_file st fid fails) !! p = None.
Proof.
  intros Hp. unfold delete_file. destruct (files st !! fid) as [meta|]; [|done].
  destruct fails; [done|]. cbn [disk].
  match goal with |- delete ?q _ !! _ = _ => destruct (decide (q = p)) as [->|] end.
  - apply lookup_delete_eq.
  - by rewrite lookup_delete_ne.
Qed.

Lemma delete_file_disk_kept st fid fails (p : string) data :
  disk (delete_file st fid fails) !! p = Some data → disk st !! p = Some data.
Proof.
  unfold delete_file. destruct (files st !! fid) as [meta|]; [|done].
  destruct fails; [done|]. cbn [disk]. intros Hp.
  by apply lookup_delete_Some in Hp as [_ Hp].
Qed.

Section file_sweep.
Variable unlink_fails : string → bool.

Lemma sweep_files l st k :
  files (sweep unlink_fails st l) !! k = if decide (k ∈ l) then None else files st !! k.
Proof.
  revert st. induction l as [|c l IH]; intros st.
  - cbn [sweep foldl]. destruct (decide (k ∈ [])) as [Hin|]; [|done].
    by apply elem_of_nil in Hin.
  - unfold sweep in *. cbn [foldl]. rewrite IH, delete_file_files.
    destruct (decide (k ∈ l)) as [Hin|Hnin];
      destruct (decide (k ∈ c :: l)) as [Hin'|Hnin']; try done.
    + exfalso. apply Hnin'. by right.
    + apply elem_of_cons in Hin' as [->|?]; [|done]. apply lookup_delete_eq.
    + apply lookup_delete_ne. intros <-. apply Hnin'. left.
Qed.

Lemma sweep_total l st :
  total_bytes_relayed (sweep unlink_fails st l) = total_bytes_relayed st.
Proof.
  revert st. induction l as [|c l IH]; intros st; [done|].
  unfold sweep in *. cbn [foldl]. by rewrite IH, delete_file_total.
Qed.

Lemma sweep_disk_kept l st (p : string) data :
  disk (sweep unlink_fails st l) !! p = Some data → disk st !! p = Some data.
Proof.
  revert st. induction l as [|c l IH]; intros st; [done|].
  unfold sweep in *. cbn [foldl]. intros Hp.
  by eapply delete_file_disk_kept, IH.
Qed.

Lemma sweep_disk_gone l st fid meta :
  unlink_fails fid = false →
  (fid ∈ l ∧ files st !! fid = Some meta)
  ∨ disk st !! stored_name fid meta = None →
  disk (sweep unlink_fails st l) !! stored_name fid meta = None.
Proof.
  intros Hunlink. revert st. induction l as [|c l IH]; intros st Hcase.
  - destruct Hcase as [[Hin _]|Hgone]; [by apply elem_of_nil in Hin|done].
  - unfold sweep in *. cbn [foldl]. apply IH.
    destruct Hcase as [[Hin Hmeta]|Hgone].
    + destruct (decide (c = fid)) as [->|Hne].
      * right. unfold delete_file, stored_name. rewrite Hmeta, Hunlink.
        cbn [disk]. apply lookup_delete_eq.
      * left. split.
        -- apply elem_of_cons in Hin as [?|?]; [congruence|done].
        -- rewrite delete_file_files. by rewrite lookup_delete_ne.
    + right. by apply delete_file_disk_shrinks.
Qed.
End file_sweep.

(** X15. One sweep of the file janitor removes from the table every file
    that is expired at the time of the sweep and no other. It never adds to
    the upload directory nor alters an object there; the object of every
    expired file whose [unlink] succeeds is gone; and [total_bytes_relayed]
    is not touched. *)
Theorem relay_cleanup_sweep_spec (st : FileRelay) (now : Q)
    (unlink_fails : string → bool) :
  let st' := relay_cleanup_sweep st now unlink_fails in
  files st' = filter (λ kv, file_expired now kv.2 = false) (files st)
  ∧ total_bytes_relayed st' = total_bytes_relayed st
  ∧ (∀ p data, disk st' !! p = Some data → disk st !! p = Some data)
  ∧ (∀ fid meta,
       files st !! fid = Some meta → file_expired now meta = true →
       unlink_fails fid = false →
       disk st' !! stored_name fid meta = None).
Proof.
  intros st'. subst st'. unfold relay_cleanup_sweep.
  split; [|split; [|split]].
  - apply map_eq. intros k. rewrite sweep_files.
    apply (lookup_unless_listed (file_expired now)).
  - apply sweep_total.
  - intros p data. apply sweep_disk_kept.
  - intros fid meta Hmeta Hexp Hunlink. apply sweep_disk_gone; [done|].
    left. split; [|done]. apply list_elem_of_fmap. exists (fid, meta).
    split; [done|]. apply list_elem_of_filter. split; [done|].
    by apply elem_of_map_to_list.
Qed.

(** X16. A file stored at time [t], on a clock that is not negative, lives
    for [RELAY_FILE_TTL] seconds: a sweep of the janitor at any time up to
    and including [t + RELAY_FILE_TTL] keeps its entry as stored, and any
    later sweep removes it. *)
Theorem stored_file_lifetime `{Lz4Frame} `{XxHash} (st : FileRelay)
    (file : UploadFile) (room_code : option string) (compress : bool)
    (file_id : string) (t t_uploaded now : Q) (unlink_fails : string → bool) :
  (0 <= t)%Q →
  let stored := store_file st file room_code compress file_id t t_uploaded in
  files (relay_cleanup_sweep stored.2 now unlink_fails) !! file_id
  = if Qlt_bool (t + Config.RELAY_FILE_TTL) now then None else Some stored.1.
Proof.
  intros Ht stored.
  destruct (relay_cleanup_sweep_spec stored.2 now unlink_fails) as [-> _].
  assert (Hentry : files stored.2 !! file_id = Some stored.1
                   ∧ FileMetadata.expires_at stored.1
                     = Some (t + Config.RELAY_FILE_TTL)%Q).
  { subst stored. unfold store_file. generalize chunk_size. intros n.
    destruct (if compress && declared_over (declared_size file)
                               Config.MIN_COMPRESS_SIZE
              then ingest_compressed (read_chunks n (content file))
              else ingest_raw (read_chunks n (content file)))
      as [[size h] written].
    cbn [fst snd files FileMetadata.expires_at]. split; [|done].
    apply lookup_insert_eq. }
  destruct Hentry as [Hfile Hexpires].
  assert (Hexp : file_expired now stored.1
                 = Qlt_bool (t + Config.RELAY_FILE_TTL) now).
  { unfold file_expired. rewrite Hexpires.
    destruct (Qeq_bool (t + Config.RELAY_FILE_TTL) 0) eqn:Hzero; [|done].
    apply Qeq_bool_eq in Hzero. exfalso.
    assert (Hpos : (0 < t + Config.RELAY_FILE_TTL)%Q).
    { apply (Qlt_le_trans _ (0 + Config.RELAY_FILE_TTL)).
      - reflexivity.
      - apply Qplus_le_l. exact Ht. }
    rewrite Hzero in Hpos. by apply Qlt_irrefl in Hpos. }
  destruct (Qlt_bool (t + Config.RELAY_FILE_TTL) now) eqn:Hlate.
  - apply map_lookup_filter_None. right. intros meta Hmeta. simpl.
    assert (meta = stored.1) as -> by congruence. congruence.
  - apply map_lookup_filter_Some. split; [done|]. simpl. congruence.
Qed.

Lemma stored_file_lifetime_witness :
  files (relay_cleanup_sweep Toy.stored.2 3601 (λ _, false)) !! "h3Zk-Q_a"
  = None.
Proof.
  assert (Ht : (0 <= 0)%Q) by apply Qle_refl.
  exact (@stored_file_lifetime Toy.codec Toy.hash Toy.empty_relay Toy.declared
           None true "h3Zk-Q_a" 0 0 3601 (λ _, false) Ht).
Defined.

(** ** The receive loop *)

Lemma keys_set_present {V : Type} (k : string) (v : V) (d : list (string * V)) :
  PyDict.get k d ≠ None → PyDict.keys (PyDict.set k v d) = PyDict.keys d.
Proof.
  induction d as [|[k' v'] d IH]; simpl; [done|].
  destruct (String.eqb k k') eqn:E; simpl.
  - apply String.eqb_eq in E. by subst.
  - intros Hget. by rewrite IH.
Qed.

Lemma elem_set_other {V : Type} (k k' : string) (v v' : V)
    (d : list (string * V)) :
  (k', v') ∈ PyDict.set k v d → k' ≠ k → (k', v') ∈ d.
Proof.
  intros Hin Hne. induction d as [|[k0 v0] d IH]; simpl in Hin.
  - apply list_elem_of_singleton in Hin. congruence.
  - destruct (String.eqb k k0) eqn:E.
    + apply String.eqb_eq in E. subst k0.
      apply elem_of_cons in Hin as [Hin|Hin]; [congruence|by right].
    + apply elem_of_cons in Hin as [Hin|Hin]; [rewrite Hin; left|].
      right. by apply IH.
Qed.

(** X4. A frame that decodes to anything but a JSON object (an array, a
    string, a number, a boolean, null) ends the handler of the peer that
    sent it, once it is past the rate limit: [relay_message] raises at
    [message.get] and the loop is left. By then the message is counted, in
    the room and globally, and the room's [last_activity] is refreshed; no
    frame is sent to anybody and no latency sample is recorded. *)
Theorem non_object_message_ends_loop (st : RoomManager) (key pid : string)
    (room : Room) (peer : Peer) (message : json) (t_limit now t0 t1 : Q) :
  rooms st !! key = Some room →
  PyDict.get pid (peers room) = Some peer →
  (1 / Config.MAX_MESSAGES_PER_SECOND <= t_limit - last_message_time peer)%Q →
  (∀ m, message ≠ JObj m) →
  ∃ st' room',
    ws_receive st key pid message t_limit now t0 t1 = Some (st', [], false)
    ∧ rooms st' = <[key := room']> (rooms st)
    ∧ message_count room' = (message_count room + 1)%Z
    ∧ last_activity room' = now
    ∧ PyDict.keys (peers room') = PyDict.keys (peers room)
    ∧ total_messages st' = (total_messages st + 1)%Z
    ∧ latencies st' = latencies st.
Proof.
  intros Hroom Hpeer Hrate Hobj. unfold ws_receive. rewrite Hroom, Hpeer.
  unfold check_rate_limit.
  apply Qlt_bool_false_iff in Hrate. rewrite Hrate.
  rewrite relay_message_not_object by done.
  eexists _, _. split; [reflexivity|]. cbn.
  repeat split. apply keys_set_present. by rewrite Hpeer.
Qed.

Lemma non_object_message_ends_loop_witness :
  ∃ st' room',
    ws_receive Run.hosted "AB23CD" "alice" (JArr [JStr "offer"]) 5 5 0 0
      = Some (st', [], false)
    ∧ rooms st' = <["AB23CD" := room']> (rooms Run.hosted).
Proof.
  assert (Hroom : rooms Run.hosted !! "AB23CD"
                  = Some {| code := "AB23CD";
                            peers := [("alice", Demo.alice)];
                            created_at := 0; last_activity := 0;
                            message_count := 0 |})
    by (vm_compute; reflexivity).
  assert (Hrate : (1 / Config.MAX_MESSAGES_PER_SECOND
                   <= 5 - last_message_time Demo.alice)%Q)
    by (vm_compute; discriminate).
  assert (Hobj : ∀ m, JArr [JStr "offer"] ≠ JObj m) by discriminate.
  destruct (non_object_message_ends_loop Run.hosted "AB23CD" "alice" _
              Demo.alice (JArr [JStr "offer"]) 5 5 0 0
              Hroom eq_refl Hrate Hobj) as (st' & room' & Hrecv & Hrooms & _).
  exists st', room'. exact (conj Hrecv Hrooms).
Defined.

(** X17. Two frames in a burst: when a peer's frame, a JSON object, is
    accepted at time [t] and relayed, its next frame, read less than
    [1 / MAX_MESSAGES_PER_SECOND] seconds after [t], is not relayed. The
    peer is sent one [Rate limited] error, nothing in the registry changes,
    not even the time the limit counts from, and the loop goes on. *)
Theorem burst_is_rate_limited (st : RoomManager) (key pid : string)
    (room : Room) (peer : Peer) (m : list (string * json)) (message' : json)
    (t now t0 t1 t' now' t0' t1' : Q) :
  rooms st !! key = Some room →
  PyDict.get pid (peers room) = Some peer →
  (1 / Config.MAX_MESSAGES_PER_SECOND <= t - last_message_time peer)%Q →
  (t' - t < 1 / Config.MAX_MESSAGES_PER_SECOND)%Q →
  ∃ st1 fs,
    ws_receive st key pid (JObj m) t now t0 t1 = Some (st1, fs, true)
    ∧ ws_receive st1 key pid message' t' now' t0' t1'
      = Some (st1, [error_frame (ws peer) "Rate limited"], true).
Proof.
  intros Hroom Hpeer Hrate Hburst. unfold ws_receive at 1.
  rewrite Hroom, Hpeer. unfold check_rate_limit.
  apply Qlt_bool_false_iff in Hrate. rewrite Hrate.
  unfold relay_message. cbn [peers with_peers].
  destruct (relay_loop _ _ _ _) as [m' fs].
  eexists _, _. split; [reflexivity|].
  unfold ws_receive. cbn [rooms with_rooms]. rewrite lookup_insert_eq.
  cbn [peers]. rewrite PyDictFacts.get_set_eq. unfold check_rate_limit.
  cbn [last_message_time ws].
  apply Qlt_bool_iff in Hburst. by rewrite Hburst.
Qed.

Lemma burst_is_rate_limited_witness :
  ∃ st1 fs,
    ws_receive Run.hosted "AB23CD" "alice" (JObj Demo.offer) 5 5 0 0
      = Some (st1, fs, true)
    ∧ ws_receive st1 "AB23CD" "alice" (JObj Demo.offer) (5 + (1 # 200)) 6 0 0
      = Some (st1, [error_frame 1 "Rate limited"], true).
Proof.
  assert (Hroom : rooms Run.hosted !! "AB23CD"
                  = Some {| code := "AB23CD";
                            peers := [("alice", Demo.alice)];
                            created_at := 0; last_activity := 0;
                            message_count := 0 |})
    by (vm_compute; reflexivity).
  assert (Hrate : (1 / Config.MAX_MESSAGES_PER_SECOND
                   <= 5 - last_message_time Demo.alice)%Q)
    by (vm_compute; discriminate).
  assert (Hburst : (5 + (1 # 200) - 5 < 1 / Config.MAX_MESSAGES_PER_SECOND)%Q)
    by (vm_compute; reflexivity).
  exact (burst_is_rate_limited Run.hosted "AB23CD" "alice" _ Demo.alice
           Demo.offer (JObj Demo.offer) 5 5 0 0 (5 + (1 # 200)) 6 0 0
           Hroom eq_refl Hrate Hburst).
Defined.

(** ** Joining under a peer id that is taken *)

(** X18. [add_peer] does not look whether the peer id is in use. A peer that
    joins under the id of a member takes that member's place in the room:
    the count of peers stays, the entry under the id is the newcomer, the
    replaced member is sent nothing, and the newcomer's address is counted
    one more, as is [total_connections]. *)
Theorem duplicate_peer_id_replaces (room : Room) (st : RoomManager)
    (peer old : Peer) (now : Q) :
  PyDict.get (peer_id peer) (peers room) = Some old →
  let res := add_peer room st peer now in
  peer_count res.1.1 = peer_count room
  ∧ PyDict.get (peer_id peer) (peers res.1.1) = Some peer
  ∧ PyDict.keys (peers res.1.1) = PyDict.keys (peers room)
  ∧ (∀ w m, Send w m ∈ res.2 →
       w = ws peer ∨ ∃ k p, (k, p) ∈ peers room ∧ k ≠ peer_id peer ∧ w = ws p)
  ∧ counted (ip_address peer) res.1.2 = (counted (ip_address peer) st + 1)%Z
  ∧ total_connections res.1.2 = (total_connections st + 1)%Z.
Proof.
  intros Hold res. subst res. unfold add_peer.
  pose proof (dd_read_counted (ip_address peer) st) as Hn.
  destruct (dd_read (ip_address peer) (ip_connections st)) as [n ips].
  cbn [fst snd] in *. subst n. unfold peer_count. cbn [peers].
  split; [apply PyDictFacts.length_set_present; by rewrite Hold|].
  split; [apply PyDictFacts.get_set_eq|].
  split; [apply keys_set_present; by rewrite Hold|].
  split.
  { intros w m Hin. apply elem_of_app in Hin as [Hin|Hin].
    - apply list_elem_of_fmap in Hin as ([k p] & [= -> _] & Hin).
      apply list_elem_of_filter in Hin as [Hne Hin]. cbn [fst snd] in *.
      apply negb_true_iff, String.eqb_neq in Hne.
      right. exists k, p. split; [|done]. by eapply elem_set_other.
    - apply list_elem_of_singleton in Hin. injection Hin as -> _. by left. }
  split; [|done]. unfold counted. cbn [ip_connections].
  by rewrite lookup_insert_eq.
Qed.

Lemma duplicate_peer_id_replaces_witness :
  peer_count
    (add_peer Demo.pair RoomManager_init
       (Peer_init 9 "bob" false "AB23CD" "10.0.0.9" 0) 0).1.1
  = peer_count Demo.pair.
Proof.
  exact (proj1 (duplicate_peer_id_replaces Demo.pair RoomManager_init
                  (Peer_init 9 "bob" false "AB23CD" "10.0.0.9" 0) Demo.bob 0
                  eq_refl)).
Defined.

(** ** Address counters and live peers *)

Lemma count_set (a : string) (k : string) (v : Peer) (d : list (string * Peer)) :
  (Z.of_nat (List.length (filter (λ p, ip_address p = a)
                            (PyDict.values (PyDict.set k v d))))
   ≤ Z.of_nat (List.length (filter (λ p, ip_address p = a) (PyDict.values d)))
     + Z.b2z (bool_decide (ip_address v = a)))%Z.
Proof.
  unfold PyDict.values.
  induction d as [|[k' v'] d IH]; simpl.
  - rewrite filter_cons, filter_nil.
    case_bool_decide; case_decide; simpl; first [lia|congruence].
  - destruct (String.eqb k k'); simpl; rewrite !filter_cons;
      repeat case_decide; case_bool_decide; simpl in *;
      first [lia|congruence].
Qed.

Lemma count_set_same (a : string) (k : string) (v v0 : Peer)
    (d : list (string * Peer)) :
  PyDict.get k d = Some v0 → ip_address v = ip_address v0 →
  List.length (filter (λ p, ip_address p = a) (PyDict.values (PyDict.set k v d)))
  = List.length (filter (λ p, ip_address p = a) (PyDict.values d)).
Proof.
  unfold PyDict.values. intros Hget Hip.
  induction d as [|[k' v'] d IH]; simpl in *; [done|].
  destruct (String.eqb k k'); simpl; rewrite !filter_cons.
  - injection Hget as ->. rewrite Hip. by repeat case_decide.
  - specialize (IH Hget).
    destruct (decide (ip_address v' = a)); simpl; by rewrite IH.
Qed.

Lemma count_remove (a : string) (k : string) (v0 : Peer)
    (d : list (string * Peer)) :
  PyDict.get k d = Some v0 →
  (Z.of_nat (List.length (filter (λ p, ip_address p = a)
                            (PyDict.values (PyDict.remove k d))))
   + Z.b2z (bool_decide (ip_address v0 = a))
   = Z.of_nat (List.length (filter (λ p, ip_address p = a) (PyDict.values d))))%Z.
Proof.
  unfold PyDict.values. intros Hget.
  induction d as [|[k' v'] d IH]; simpl in *; [done|].
  destruct (String.eqb k k'); simpl; rewrite !filter_cons.
  - injection Hget as ->.
    case_bool_decide; case_decide; simpl; first [lia|congruence].
  - specialize (IH Hget).
    destruct (decide (ip_address v' = a)); rewrite ?length_cons; lia.
Qed.

Lemma live_from_insert_fresh a k r (m : gmap string Room) :
  m !! k = None →
  live_from a (<[k := r]> m) = (Z.of_nat (peers_from a r) + live_from a m)%Z.
Proof.
  intros Hk. unfold live_from.
  rewrite map_fold_insert_L; [done| |done]. intros. lia.
Qed.

Lemma live_from_delete a k r (m : gmap string Room) :
  m !! k = Some r →
  live_from a m = (Z.of_nat (peers_from a r) + live_from a (delete k m))%Z.
Proof.
  intros Hk. unfold live_from.
  rewrite (map_fold_delete_L _ _ k r m); [done| |done]. intros. lia.
Qed.

Lemma live_from_insert a k r (m : gmap string Room) :
  live_from a (<[k := r]> m)
  = (Z.of_nat (peers_from a r) + live_from a (delete k m))%Z.
Proof.
  rewrite <- insert_delete_eq. apply live_from_insert_fresh, lookup_delete_eq.
Qed.

Lemma live_from_delete_le a k (m : gmap string Room) :
  (live_from a (delete k m) ≤ live_from a m)%Z.
Proof.
  destruct (m !! k) as [r|] eqn:Hk.
  - rewrite (live_from_delete a k r m Hk). lia.
  - by rewrite delete_id.
Qed.

Lemma live_from_replace a k r0 r (m : gmap string Room) :
  m !! k = Some r0 →
  live_from a (<[k := r]> m)
  = (live_from a m - Z.of_nat (peers_from a r0) + Z.of_nat (peers_from a r))%Z.
Proof.
  intros Hk. rewrite live_from_insert, (live_from_delete a k r0 m Hk). lia.
Qed.

Lemma live_from_nonneg a (m : gmap string Room) : (0 ≤ live_from a m)%Z.
Proof.
  unfold live_from.
  apply (map_fold_weak_ind (λ n _, (0 ≤ n)%Z)); [done|]. intros. lia.
Qed.

Lemma dd_read_default (k a : string) (d : gmap string Z) :
  default 0%Z ((dd_read k d).2 !! a) = default 0%Z (d !! a).
Proof.
  unfold dd_read. destruct (d !! k) eqn:Hk; [done|]. simpl.
  destruct (decide (a = k)) as [->|Hne].
  - by rewrite lookup_insert_eq, Hk.
  - by rewrite lookup_insert_ne.
Qed.

Lemma dd_read_value (k : string) (d : gmap string Z) :
  (dd_read k d).1 = default 0%Z (d !! k).
Proof. unfold dd_read. by destruct (d !! k). Qed.

Lemma counts_ok_step st st' :
  counts_ok st →
  (∀ a, (live_from a (rooms st') - live_from a (rooms st)
         ≤ counted a st' - counted a st)%Z) →
  counts_ok st'.
Proof. intros Hok Hd a. specialize (Hok a). specialize (Hd a). lia. Qed.

Lemma create_room_counts st tape t1 t2 c st' :
  create_room st tape t1 t2 = Return (c, st') → counts_ok st → counts_ok st'.
Proof.
  intros Hc Hok. apply create_room_rooms in Hc as (_ & Hfree & ->).
  apply (counts_ok_step st); [done|]. intros a. cbn [rooms with_rooms].
  rewrite live_from_insert_fresh by done.
  unfold counted, peers_from. simpl. lia.
Qed.

Lemma get_room_counts st c now : counts_ok st → counts_ok (get_room st c now).2.
Proof.
  intros Hok. unfold get_room.
  destruct (rooms st !! upper c) as [room|]; [|done].
  destruct (is_expired now room); [|done].
  apply (counts_ok_step st); [done|]. intros a. cbn [snd rooms with_rooms].
  pose proof (live_from_delete_le a (upper c) (rooms st)).
  unfold counted. simpl. lia.
Qed.

Lemma close_room_counts st c : counts_ok st → counts_ok (close_room st c).1.
Proof.
  intros Hok. unfold close_room.
  destruct (rooms st !! upper c) as [room|]; [|done].
  apply (counts_ok_step st); [done|]. intros a. cbn [fst rooms with_rooms].
  pose proof (live_from_delete_le a (upper c) (rooms st)).
  unfold counted. simpl. lia.
Qed.

Lemma check_ip_limit_counts st ip :
  counts_ok st → counts_ok (check_ip_limit st ip).2.
Proof.
  intros Hok. unfold check_ip_limit.
  pose proof (λ a, dd_read_default ip a (ip_connections st)) as Hd.
  destruct (dd_read ip (ip_connections st)) as [n d]. cbn [snd] in *.
  apply (counts_ok_step st); [done|]. intros a.
  unfold counted. cbn [rooms ip_connections with_ip_connections].
  rewrite (Hd a). lia.
Qed.

Lemma ws_join_counts st w ip rc pid host token clk key room :
  counts_ok st → rooms st !! key = Some room →
  counts_ok (ws_join st w ip rc pid host token clk key room).1.1.
Proof.
  intros Hok Hroom. unfold ws_join.
  destruct (Config.MAX_PEERS_PER_ROOM <=? peer_count room)%nat; [done|].
  unfold add_peer.
  match goal with
  | |- context [dd_read ?k ?d] =>
      pose proof (dd_read_value k d) as Hn;
      pose proof (λ a, dd_read_default k a d) as Hd;
      destruct (dd_read k d) as [n ips]
  end.
  cbn [fst snd] in *.
  apply (counts_ok_step st); [done|]. intros a.
  cbn [fst snd rooms with_rooms]. rewrite (live_from_replace a key room) by done.
  unfold peers_from at 2. cbn [peers].
  match goal with
  | |- context [PyDict.set ?k ?v (peers room)] =>
      pose proof (count_set a k v (peers room)) as Hc
  end.
  cbn [ip_address Peer_init] in *.
  unfold peers_from, counted. cbn [ip_connections with_rooms].
  specialize (Hd a). specialize (Hok a). unfold counted in Hok.
  case_bool_decide as Ha.
  - subst a. rewrite lookup_insert_eq. simpl in *. lia.
  - rewrite lookup_insert_ne by done. simpl in *. lia.
Qed.

Lemma ws_admit_counts st w ip rc pid host tape token clk :
  counts_ok st → counts_ok (ws_admit st w ip rc pid host tape token clk).1.1.
Proof.
  intros Hok. unfold ws_admit.
  pose proof (get_room_counts st (upper rc) (t_lookup clk) Hok) as Hok1.
  pose proof (get_room_found st (upper rc) (t_lookup clk)) as Hfound.
  destruct (get_room st (upper rc) (t_lookup clk)) as [found st1].
  simpl in Hok1, Hfound. destruct found as [room|].
  { by apply ws_join_counts, Hfound. }
  destruct (String.eqb (lower host) "true"); [|done].
  destruct (create_room st1 tape (t_created clk) (t_activity clk))
    as [[c st2]| |] eqn:Hc; [|done|done].
  pose proof (create_room_counts _ _ _ _ _ _ Hc Hok1) as Hok2.
  destruct (rooms st2 !! upper rc) as [old|] eqn:Hold.
  - rewrite Hold. by apply ws_join_counts.
  - destruct (rooms st2 !! c) as [fresh|] eqn:Hfresh; [|done].
    assert (Hok3 : counts_ok (with_rooms (<[upper rc := with_code (upper rc) fresh]>
                                            (delete c (rooms st2))) st2)).
    { apply (counts_ok_step st2); [done|]. intros a. cbn [rooms with_rooms].
      rewrite live_from_insert, (live_from_delete a c fresh (rooms st2) Hfresh).
      pose proof (live_from_delete_le a (upper rc) (delete c (rooms st2))).
      unfold counted, peers_from. simpl. lia. }
    simpl. rewrite lookup_insert_eq.
    apply ws_join_counts; [done|]. simpl. apply lookup_insert_eq.
Qed.

Lemma relay_message_ips room st sender_id message now t0 t1 :
  ip_connections (relay_message room st sender_id message now t0 t1).1.2
  = ip_connections st.
Proof.
  unfold relay_message. destruct message; try done. simpl.
  by destruct (relay_loop _ _ _ _).
Qed.

Lemma ws_receive_counts st key pid message t_limit now t0 t1 st' fs continue :
  ws_receive st key pid message t_limit now t0 t1 = Some (st', fs, continue) →
  counts_ok st → counts_ok st'.
Proof.
  unfold ws_receive. intros Hrecv Hok.
  destruct (rooms st !! key) as [room|] eqn:Hroom; [|done].
  destruct (PyDict.get pid (peers room)) as [peer|] eqn:Hpeer; [|done].
  assert (Hip : ip_address (check_rate_limit t_limit peer).2 = ip_address peer).
  { unfold check_rate_limit. by destruct (Qlt_bool _ _). }
  destruct (check_rate_limit t_limit peer) as [[] peer']; cbn [snd] in Hip.
  - match type of Hrecv with
    | context [relay_message ?r ?s ?p ?m ?a ?b ?c] =>
        destruct (relay_message_shape r s p m a b c) as [Hp Hr];
        pose proof (relay_message_ips r s p m a b c) as Hi;
        destruct (relay_message r s p m a b c) as [[room2 st2] sent]
    end.
    injection Hrecv as <- _ _. simpl in Hp, Hr, Hi.
    apply (counts_ok_step st); [done|]. intros a. cbn [rooms with_rooms].
    rewrite Hr, (live_from_replace a key room) by done.
    unfold peers_from, counted. cbn [ip_connections with_rooms].
    rewrite Hp, Hi, (count_set_same a pid peer' peer) by done. lia.
  - by injection Hrecv as <- _ _.
Qed.

Lemma remove_peer_counts st key room pid :
  counts_ok st → rooms st !! key = Some room →
  counts_ok (remove_peer st key room pid).1.
Proof.
  intros Hok Hroom. unfold remove_peer.
  destruct (PyDict.get pid (peers room)) as [peer|] eqn:Hpeer; [|done].
  pose proof (dd_read_value (ip_address peer) (ip_connections st)) as Hn.
  pose proof (λ a, dd_read_default (ip_address peer) a (ip_connections st))
    as Hd.
  destruct (dd_read (ip_address peer) (ip_connections st)) as [n ips].
  cbn [fst snd] in *.
  match goal with
  | |- context [with_rooms (<[key := ?r]> _) ?s] =>
      assert (Hok1 : counts_ok (with_rooms (<[key := r]> (rooms st)) s))
  end.
  { intros a. cbn [rooms with_rooms with_ip_connections].
    rewrite (live_from_replace a key room) by done.
    pose proof (count_remove a pid peer (peers room) Hpeer) as Hc.
    pose proof (live_from_delete a key room (rooms st) Hroom) as Hl.
    pose proof (live_from_nonneg a (delete key (rooms st))).
    specialize (Hok a). specialize (Hd a).
    unfold peers_from, counted in *. cbn [peers with_peers ip_connections
      with_rooms with_ip_connections].
    case_bool_decide as Ha.
    - subst a. rewrite lookup_insert_eq. simpl in *. lia.
    - rewrite lookup_insert_ne by done. simpl in *. lia. }
  destruct (peer_count _ =? 0)%nat; [|done].
  match goal with
  | |- context [close_room ?s ?c] =>
      pose proof (close_room_counts s c Hok1); destruct (close_room s c)
  end.
  done.
Qed.

Lemma ws_finally_counts st rc pid now :
  counts_ok st → counts_ok (ws_finally st rc pid now).1.
Proof.
  intros Hok. unfold ws_finally.
  pose proof (get_room_counts st rc now Hok) as Hok1.
  pose proof (get_room_found st rc now) as Hfound.
  destruct (get_room st rc now) as [[room|] st1]; [|done].
  simpl in *. by apply remove_peer_counts, Hfound.
Qed.

Lemma cleanup_sweep_counts st now :
  counts_ok st → counts_ok (cleanup_sweep st now).1.
Proof.
  unfold cleanup_sweep.
  generalize (map fst (filter (λ kv, is_expired now kv.2 = true)
                         (map_to_list (rooms st)))).
  intros expired. generalize (@nil frame). revert st.
  induction expired as [|c expired IH]; intros st fs Hok; [done|].
  simpl. pose proof (close_room_counts st c Hok) as Hok1.
  destruct (close_room st c) as [st1 fs1]. by apply IH.
Qed.

Lemma step_counts st st' : step st st' → counts_ok st → counts_ok st'.
Proof.
  intros Hstep Hok. destruct Hstep.
  - by eapply create_room_counts.
  - pose proof (get_room_counts st c now Hok) as Hg. by rewrite H in Hg.
  - pose proof (check_ip_limit_counts st ip Hok) as Hc. by rewrite H in Hc.
  - pose proof (ws_admit_counts st w ip rc pid host tape token clk Hok) as Ha.
    by rewrite H in Ha.
  - by eapply ws_receive_counts.
  - destruct (relay_message_shape room st pid message now t0 t1) as [Hp Hr].
    pose proof (relay_message_ips room st pid message now t0 t1) as Hi.
    rewrite H0 in Hp, Hr, Hi. simpl in *.
    apply (counts_ok_step st); [done|]. intros a. cbn [rooms with_rooms].
    rewrite Hr, (live_from_replace a key room) by done.
    unfold peers_from, counted. cbn [ip_connections with_rooms].
    rewrite Hp, Hi. lia.
  - destruct (relay_message_shape room st pid message now t0 t1) as [_ Hr].
    pose proof (relay_message_ips room st pid message now t0 t1) as Hi.
    rewrite H in Hr, Hi. simpl in *.
    apply (counts_ok_step st); [done|]. intros a.
    unfold counted. rewrite Hr, Hi. lia.
  - pose proof (ws_finally_counts st rc pid now Hok) as Hf. by rewrite H in Hf.
  - pose proof (close_room_counts st c Hok) as Hc. by rewrite H in Hc.
  - pose proof (cleanup_sweep_counts st now Hok) as Hs. by rewrite H in Hs.
Qed.

Lemma reachable_counts st : reachable st → counts_ok st.
Proof.
  unfold reachable. intros Hr.
  apply (rtc_ind_r (R := step) (λ s, counts_ok s) RoomManager_init);
    [|  |exact Hr].
  - intros a. unfold live_from, counted. simpl. by rewrite map_fold_empty.
  - intros st1 st2 _ Hstep IH. by apply (step_counts st1).
Qed.



(** ** A host opens a room and leaves *)

Lemma host_admit_state (st : RoomManager) (w : WebSocket)
    (ip rc : string) (pid : option string) (host : string) (tape : list nat)
    (token : string) (clk : admit_clock) (c : string) (st2 : RoomManager) :
  rooms st !! upper rc = None →
  String.eqb (lower host) "true" = true →
  create_room st tape (t_created clk) (t_activity clk) = Return (c, st2) →
  let me :=
    Peer_init w (match pid with
                 | Some s => if String.eqb s "" then token else s
                 | None => token
                 end) true (upper rc) ip (t_connected clk) in
  let room :=
    {| code := upper rc; peers := [(peer_id me, me)];
       created_at := t_created clk; last_activity := t_joined clk;
       message_count := 0 |} in
  let res := ws_admit st w ip rc pid host tape token clk in
  rooms res.1.1 = <[upper rc := room]> (rooms st)
  ∧ ip_connections res.1.1
    = <[ip := ((dd_read ip (ip_connections st)).1 + 1)%Z]>
        (dd_read ip (ip_connections st)).2
  ∧ total_connections res.1.1 = (total_connections st + 1)%Z.
Proof.
  intros Hfree Hhost Hcreate me room res. subst res.
  destruct (create_room_rooms _ _ _ _ _ _ Hcreate) as (Hup & Hc & Hst2).
  unfold ws_admit, get_room. rewrite upper_idemp, Hfree, Hhost, Hcreate.
  subst st2. cbn [rooms with_rooms].
  destruct (decide (c = upper rc)) as [->|Hne].
  - rewrite lookup_insert_eq. cbn [rooms with_rooms]. rewrite lookup_insert_eq.
    match goal with
    | |- context [ws_join ?s _ _ _ _ _ _ _ _ _] =>
        destruct (ws_join_first s w ip (upper rc) pid true token clk
                    (t_created clk) (t_activity clk))
          as (_ & Hrooms & _ & Hips & Htot)
    end.
    rewrite Hrooms, Hips, Htot. cbn [rooms with_rooms].
    by rewrite insert_insert_eq.
  - rewrite lookup_insert_ne, Hfree by done. rewrite lookup_insert_eq.
    cbn [rooms with_rooms]. rewrite lookup_insert_eq.
    rewrite delete_insert_eq, (delete_id _ _ Hc).
    change (with_code (upper rc) (Room_init c (t_created clk) (t_activity clk)))
      with (Room_init (upper rc) (t_created clk) (t_activity clk)).
    match goal with
    | |- context [ws_join ?s _ _ _ _ _ _ _ _ _] =>
        destruct (ws_join_first s w ip (upper rc) pid true token clk
                    (t_created clk) (t_activity clk))
          as (_ & Hrooms & _ & Hips & Htot)
    end.
    rewrite Hrooms, Hips, Htot. cbn [rooms with_rooms].
    by rewrite insert_insert_eq.
Qed.

Lemma ws_finally_leaves (st : RoomManager) (key pid : string)
    (room : Room) (peer : Peer) (now : Q) :
  rooms st !! key = Some room →
  code room = key → upper key = key →
  PyDict.get pid (peers room) = Some peer →
  is_expired now room = false →
  rooms (ws_finally st key pid now).1
  = match PyDict.remove pid (peers room) with
    | [] => delete key (rooms st)
    | rest => <[key := with_peers rest room]> (rooms st)
    end
  ∧ (ws_finally st key pid now).2
    = map (λ kv : string * Peer,
             Send (ws kv.2)
               (JObj [("type", JStr "peer-left"); ("peerId", JStr pid);
                      ("peerCount",
                       jnat (List.length (PyDict.remove pid (peers room))))]))
        (PyDict.remove pid (peers room))
  ∧ ip_connections (ws_finally st key pid now).1
    = <[ip_address peer :=
          Z.max 0 ((dd_read (ip_address peer) (ip_connections st)).1 - 1)]>
        (dd_read (ip_address peer) (ip_connections st)).2
  ∧ total_connections (ws_finally st key pid now).1 = total_connections st.
Proof.
  intros Hroom Hcode Hkey Hget Hlive.
  unfold ws_finally, get_room. rewrite Hkey, Hroom, Hlive.
  unfold remove_peer. rewrite Hget.
  destruct (dd_read (ip_address peer) (ip_connections st)) as [n ips].
  unfold peer_count. cbn [peers with_peers fst snd].
  destruct (PyDict.remove pid (peers room)) as [|kv rest] eqn:Hrest.
  - cbn [List.length Nat.eqb]. unfold close_room. cbn [code with_peers].
    rewrite Hcode, Hkey. cbn [rooms with_rooms]. rewrite lookup_insert_eq.
    cbn [fst snd rooms with_rooms ip_connections with_ip_connections].
    by rewrite delete_insert_eq.
  - cbn [List.length Nat.eqb fst snd rooms with_rooms ip_connections
         with_ip_connections].
    split; [done|]. split; [|done].
    unfold PyDict.values. by rewrite map_map.
Qed.

(** X20. A host that opens a room under a free code and leaves before the
    room expires, the room still holding nobody else, leaves no trace in any
    state the server reaches: the registry of rooms is as it was before the
    host connected, so is the counter of every address, and no frame is
    sent on the way out. Only [total_connections] remembers the visit. *)
Theorem host_join_leave_round_trip (st : RoomManager) (w : WebSocket)
    (ip rc : string) (pid : option string) (host : string) (tape : list nat)
    (token : string) (clk : admit_clock) (c : string) (st2 : RoomManager)
    (now : Q) :
  reachable st →
  rooms st !! upper rc = None →
  String.eqb (lower host) "true" = true →
  create_room st tape (t_created clk) (t_activity clk) = Return (c, st2) →
  (now - t_joined clk <= Config.ROOM_TIMEOUT)%Q →
  let me_id :=
    match pid with
    | Some s => if String.eqb s "" then token else s
    | None => token
    end in
  let st1 := (ws_admit st w ip rc pid host tape token clk).1.1 in
  let res := ws_finally st1 (upper rc) me_id now in
  rooms res.1 = rooms st
  ∧ res.2 = []
  ∧ (∀ a, counted a res.1 = counted a st)
  ∧ total_connections res.1 = (total_connections st + 1)%Z.
Proof.
  intros Hr Hfree Hhost Hcreate Hlive me_id st1 res.
  destruct (host_admit_state st w ip rc pid host tape token clk c st2
              Hfree Hhost Hcreate) as (Hrooms & Hips & Htot).
  fold st1 in Hrooms, Hips, Htot. fold me_id in Hrooms.
  pose proof (reachable_counts st Hr ip) as Hcount.
  pose proof (live_from_nonneg ip (rooms st)) as Hpos.
  pose proof (dd_read_value ip (ip_connections st)) as Hn.
  pose proof (λ a, dd_read_default ip a (ip_connections st)) as Hd.
  destruct (dd_read ip (ip_connections st)) as [n ips]. cbn [fst snd] in *.
  unfold counted in Hcount. rewrite <- Hn in Hcount.
  set (me := Peer_init w me_id true (upper rc) ip (t_connected clk)) in *.
  set (room := {| code := upper rc; peers := [(peer_id me, me)];
                  created_at := t_created clk; last_activity := t_joined clk;
                  message_count := 0 |}) in *.
  assert (Hlook : rooms st1 !! upper rc = Some room).
  { rewrite Hrooms. apply lookup_insert_eq. }
  assert (Hget : PyDict.get me_id (peers room) = Some me).
  { cbn. by rewrite String.eqb_refl. }
  assert (Hexp : is_expired now room = false).
  { unfold is_expired. by apply Qlt_bool_false_iff. }
  destruct (ws_finally_leaves st1 (upper rc) me_id room me now Hlook eq_refl
              (upper_idemp rc) Hget Hexp) as (Hr1 & Hfs & Hi & Ht).
  fold res in Hr1, Hfs, Hi, Ht.
  assert (Hgone : PyDict.remove me_id (peers room) = []).
  { cbn. by rewrite String.eqb_refl. }
  rewrite Hgone in Hr1, Hfs.
  change (ip_address me) with ip in Hi. rewrite dd_read_value in Hi.
  assert (Hsame : (dd_read ip (ip_connections st1)).2 = ip_connections st1).
  { unfold dd_read. by rewrite Hips, lookup_insert_eq. }
  rewrite Hsame in Hi.
  split; [|split; [done|split]].
  - rewrite Hr1, Hrooms, delete_insert_eq. by apply delete_id.
  - intros a. unfold counted. rewrite Hi, Hips.
    destruct (decide (a = ip)) as [->|Hne].
    + rewrite !lookup_insert_eq. simpl. rewrite Hn. lia.
    + rewrite !lookup_insert_ne by done. apply Hd.
  - by rewrite Ht.
Qed.

Lemma host_join_leave_round_trip_witness :
  rooms (ws_finally
           (ws_admit Run.checked 1 "10.0.0.1" "ab23cd" (Some "alice") "true"
              Run.tape "tok" Run.clk0).1.1 (upper "ab23cd") "alice" 5).1
  = rooms Run.checked.
Proof.
  assert (Hr : reachable Run.checked).
  { apply (rtc_l _ _ Run.checked); [|apply rtc_refl].
    by eapply (step_check_ip _ "10.0.0.1"). }
  assert (Hfree : rooms Run.checked !! upper "ab23cd" = None)
    by (vm_compute; reflexivity).
  assert (Hhost : String.eqb (lower "true") "true" = true)
    by (vm_compute; reflexivity).
  assert (Hcreate :
    create_room Run.checked Run.tape (t_created Run.clk0) (t_activity Run.clk0)
    = Return ("ABCDEF",
              with_rooms (<["ABCDEF" := Room_init "ABCDEF" 0 0]>
                            (rooms Run.checked)) Run.checked))
    by (vm_compute; reflexivity).
  assert (Hlive : (5 - t_joined Run.clk0 <= Config.ROOM_TIMEOUT)%Q)
    by (vm_compute; discriminate).
  exact (proj1 (host_join_leave_round_trip Run.checked 1 "10.0.0.1" "ab23cd"
                  (Some "alice") "true" Run.tape "tok" Run.clk0 _ _ 5
                  Hr Hfree Hhost Hcreate Hlive)).
Defined.

(** ** A newcomer is announced *)

Lemma set_absent {V : Type} (k : string) (v : V) (d : list (string * V)) :
  PyDict.get k d = None → PyDict.set k v d = d ++ [(k, v)].
Proof.
  induction d as [|[k' v'] d IH]; simpl; [done|].
  destruct (String.eqb k k'); [done|]. intros Hget. by rewrite IH.
Qed.

Lemma filter_others {V : Type} (k : string) (d : list (string * V)) :
  PyDict.get k d = None →
  filter (λ kv, negb (String.eqb kv.1 k) = true) d = d.
Proof.
  induction d as [|[k' v'] d IH]; simpl; [done|].
  destruct (String.eqb k k') eqn:E; [done|]. intros Hget.
  rewrite filter_cons_True by (cbn [fst]; by rewrite String.eqb_sym, E).
  by rewrite IH.
Qed.

(** X21. A peer that joins a live room with a free place, under an id no
    member uses, is appended to the room; every member is sent
    [peer-joined] with the newcomer's id, its claimed host flag and the new
    count, in the order the members joined; and last the newcomer is sent
    [room-joined] with the room's code and the ids of the members it
    found. *)
Theorem newcomer_is_announced (st : RoomManager) (w : WebSocket)
    (ip rc : string) (pid : option string) (host : string) (tape : list nat)
    (token : string) (clk : admit_clock) (room : Room) :
  let me_id :=
    match pid with
    | Some s => if String.eqb s "" then token else s
    | None => token
    end in
  let me :=
    Peer_init w me_id (String.eqb (lower host) "true") (upper rc) ip
      (t_connected clk) in
  rooms st !! upper rc = Some room →
  is_expired (t_lookup clk) room = false →
  (peer_count room < Config.MAX_PEERS_PER_ROOM)%nat →
  PyDict.get me_id (peers room) = None →
  let res := ws_admit st w ip rc pid host tape token clk in
  res.2 = Joined (upper rc) me
  ∧ rooms res.1.1
    = <[upper rc := {| code := code room;
                       peers := peers room ++ [(me_id, me)];
                       created_at := created_at room;
                       last_activity := t_joined clk;
                       message_count := message_count room |}]> (rooms st)
  ∧ res.1.2
    = map (λ kv : string * Peer,
             Send (ws kv.2)
               (JObj [("type", JStr "peer-joined"); ("peerId", JStr me_id);
                      ("isHost", JBool (String.eqb (lower host) "true"));
                      ("peerCount", jnat (S (peer_count room)))]))
        (peers room)
      ++ [Send w
            (JObj [("type", JStr "room-joined");
                   ("roomCode", JStr (code room));
                   ("peerId", JStr me_id);
                   ("isHost", JBool (String.eqb (lower host) "true"));
                   ("peerCount", jnat (S (peer_count room)));
                   ("peers", JArr (map JStr (PyDict.keys (peers room))))])].
Proof.
  intros me_id me Hroom Hlive Hplace Hfree res. subst res.
  unfold ws_admit, get_room. rewrite !upper_idemp, Hroom, Hlive.
  unfold ws_join. fold me_id. fold me.
  destruct (Nat.leb_spec Config.MAX_PEERS_PER_ROOM (peer_count room)); [lia|].
  unfold add_peer.
  destruct (dd_read (ip_address me) (ip_connections st)) as [n ips].
  cbn [fst snd rooms with_rooms peers code peer_count peer_id is_host ws
       Peer_init].
  change (peer_id me) with me_id.
  rewrite (set_absent _ _ _ Hfree).
  rewrite filter_app, (filter_others _ _ Hfree).
  rewrite filter_cons_False, filter_nil, app_nil_r
    by (cbn [fst]; rewrite String.eqb_refl; done).
  unfold peer_count. cbn [peers]. rewrite length_app. cbn [List.length].
  rewrite Nat.add_1_r. done.
Qed.

Lemma newcomer_is_announced_witness :
  (ws_admit Run.hosted 2 "10.0.0.2" "AB23CD" (Some "bob") "TRUE" [] "tok"
     Run.clk0).2
  = Joined (upper "AB23CD") (Peer_init 2 "bob" true (upper "AB23CD") "10.0.0.2" 0).
Proof.
  assert (Hroom : rooms Run.hosted !! upper "AB23CD"
                  = Some {| code := "AB23CD";
                            peers := [("alice", Demo.alice)];
                            created_at := 0; last_activity := 0;
                            message_count := 0 |})
    by (vm_compute; reflexivity).
  assert (Hlive : is_expired (t_lookup Run.clk0)
                    {| code := "AB23CD"; peers := [("alice", Demo.alice)];
                       created_at := 0; last_activity := 0;
                       message_count := 0 |} = false)
    by (vm_compute; reflexivity).
  assert (Hplace : (peer_count
                      {| code := "AB23CD"; peers := [("alice", Demo.alice)];
                         created_at := 0; last_activity := 0;
                         message_count := 0 |}
                    < Config.MAX_PEERS_PER_ROOM)%nat)
    by (vm_compute; lia).
  exact (proj1 (newcomer_is_announced Run.hosted 2 "10.0.0.2" "AB23CD"
                  (Some "bob") "TRUE" [] "tok" Run.clk0 _
                  Hroom Hlive Hplace eq_refl)).
Defined.

(** ** Capacity of the registry *)

Lemma capacity_ok_insert_present st key room room' :
  capacity_ok st → rooms st !! key = Some room →
  capacity_ok (with_rooms (<[key := room']> (rooms st)) st).
Proof.
  unfold capacity_ok. intros Hok Hroom. cbn [rooms with_rooms].
  by rewrite map_size_insert_Some.
Qed.

Lemma capacity_ok_delete st key :
  capacity_ok st → capacity_ok (with_rooms (delete key (rooms st)) st).
Proof.
  unfold capacity_ok. intros Hok. cbn [rooms with_rooms].
  rewrite map_size_delete. destruct (rooms st !! key); simpl; lia.
Qed.

Lemma capacity_ok_same_rooms st st' :
  rooms st' = rooms st → capacity_ok st → capacity_ok st'.
Proof. unfold capacity_ok. by intros ->. Qed.

Lemma create_room_capacity st tape t1 t2 c st' :
  create_room st tape t1 t2 = Return (c, st') → capacity_ok st'.
Proof.
  intros Hc. pose proof (create_room_rooms _ _ _ _ _ _ Hc) as (_ & Hfree & ->).
  unfold create_room in Hc.
  destruct (Z.geb_spec (Z.of_nat (size (rooms st))) Config.MAX_ROOMS)
    as [|Hlt]; [done|].
  unfold capacity_ok. cbn [rooms with_rooms].
  rewrite map_size_insert_None by done. lia.
Qed.

Lemma get_room_capacity st c now :
  capacity_ok st → capacity_ok (get_room st c now).2.
Proof.
  intros Hok. unfold get_room.
  destruct (rooms st !! upper c) as [room|]; [|done].
  destruct (is_expired now room); [|done]. by apply capacity_ok_delete.
Qed.

Lemma close_room_capacity st c :
  capacity_ok st → capacity_ok (close_room st c).1.
Proof.
  intros Hok. unfold close_room.
  destruct (rooms st !! upper c); [|done]. by apply capacity_ok_delete.
Qed.

Lemma ws_join_capacity st w ip rc pid host token clk key room :
  capacity_ok st → rooms st !! key = Some room →
  capacity_ok (ws_join st w ip rc pid host token clk key room).1.1.
Proof.
  intros Hok Hroom. unfold ws_join.
  destruct (Config.MAX_PEERS_PER_ROOM <=? peer_count room)%nat; [done|].
  match goal with
  | |- context [add_peer ?r ?s ?p ?t] =>
      destruct (add_peer_shape r s p t) as [_ Hr];
      destruct (add_peer r s p t) as [[room' st1] fs]
  end.
  simpl in *. apply (capacity_ok_insert_present _ _ room); [|by rewrite Hr].
  by apply (capacity_ok_same_rooms st).
Qed.

Lemma ws_admit_capacity st w ip rc pid host tape token clk :
  capacity_ok st → capacity_ok (ws_admit st w ip rc pid host tape token clk).1.1.
Proof.
  intros Hok. unfold ws_admit.
  pose proof (get_room_capacity st (upper rc) (t_lookup clk) Hok) as Hok1.
  pose proof (get_room_found st (upper rc) (t_lookup clk)) as Hfound.
  destruct (get_room st (upper rc) (t_lookup clk)) as [found st1].
  simpl in Hok1, Hfound. destruct found as [room|].
  { by apply ws_join_capacity, Hfound. }
  destruct (String.eqb (lower host) "true"); [|done].
  destruct (create_room st1 tape (t_created clk) (t_activity clk))
    as [[c st2]| |] eqn:Hc; [|done|done].
  pose proof (create_room_capacity _ _ _ _ _ _ Hc) as Hok2.
  destruct (rooms st2 !! upper rc) as [old|] eqn:Hold.
  - rewrite Hold. by apply ws_join_capacity.
  - destruct (rooms st2 !! c) as [fresh|] eqn:Hfresh; [|done].
    assert (Hok3 : capacity_ok (with_rooms (<[upper rc := with_code (upper rc) fresh]>
                                              (delete c (rooms st2))) st2)).
    { unfold capacity_ok in *. cbn [rooms with_rooms].
      assert (upper rc ≠ c) by congruence.
      rewrite map_size_insert_None by (by rewrite lookup_delete_ne).
      rewrite map_size_delete, Hfresh.
      pose proof (map_size_ne_0_lookup_2 (rooms st2) c (mk_is_Some _ _ Hfresh)).
      lia. }
    simpl. rewrite lookup_insert_eq.
    apply ws_join_capacity; [done|]. simpl. apply lookup_insert_eq.
Qed.

Lemma remove_peer_capacity st key room pid :
  capacity_ok st → rooms st !! key = Some room →
  capacity_ok (remove_peer st key room pid).1.
Proof.
  intros Hok Hroom. unfold remove_peer.
  destruct (PyDict.get pid (peers room)) as [peer|]; [|done].
  destruct (dd_read (ip_address peer) (ip_connections st)) as [n ips].
  match goal with
  | |- context [with_rooms (<[key := ?r]> _) ?s] =>
      assert (Hok1 : capacity_ok (with_rooms (<[key := r]> (rooms st)) s))
  end.
  { unfold capacity_ok in *. cbn [rooms with_rooms with_ip_connections].
    by rewrite map_size_insert_Some. }
  destruct (peer_count _ =? 0)%nat; [|done].
  match goal with
  | |- context [close_room ?s ?c] =>
      pose proof (close_room_capacity s c Hok1); destruct (close_room s c)
  end.
  done.
Qed.

Lemma ws_finally_capacity st rc pid now :
  capacity_ok st → capacity_ok (ws_finally st rc pid now).1.
Proof.
  intros Hok. unfold ws_finally.
  pose proof (get_room_capacity st rc now Hok) as Hok1.
  pose proof (get_room_found st rc now) as Hfound.
  destruct (get_room st rc now) as [[room|] st1]; [|done].
  simpl in *. by apply remove_peer_capacity, Hfound.
Qed.

Lemma cleanup_sweep_capacity st now :
  capacity_ok st → capacity_ok (cleanup_sweep st now).1.
Proof.
  unfold cleanup_sweep.
  generalize (map fst (filter (λ kv, is_expired now kv.2 = true)
                         (map_to_list (rooms st)))).
  intros expired. generalize (@nil frame). revert st.
  induction expired as [|c expired IH]; intros st fs Hok; [done|].
  simpl. pose proof (close_room_capacity st c Hok) as Hok1.
  destruct (close_room st c) as [st1 fs1]. by apply IH.
Qed.

Lemma step_capacity st st' : step st st' → capacity_ok st → capacity_ok st'.
Proof.
  intros Hstep Hok. destruct Hstep.
  - by eapply create_room_capacity.
  - pose proof (get_room_capacity st c now Hok) as Hg. by rewrite H in Hg.
  - apply (capacity_ok_same_rooms st); [|done].
    pose proof (check_ip_limit_rooms st ip) as Hr. by rewrite H in Hr.
  - pose proof (ws_admit_capacity st w ip rc pid host tape token clk Hok) as Ha.
    by rewrite H in Ha.
  - unfold ws_receive in H.
    destruct (rooms st !! key) as [room|] eqn:Hroom; [|done].
    destruct (PyDict.get pid (peers room)) as [peer|]; [|done].
    destruct (check_rate_limit t_limit peer) as [[] peer'].
    + match type of H with
      | context [relay_message ?r ?s ?p ?m ?a ?b ?c] =>
          destruct (relay_message_shape r s p m a b c) as [_ Hr];
          destruct (relay_message r s p m a b c) as [[room2 st2] sent]
      end.
      injection H as <- _ _. simpl in *.
      apply (capacity_ok_insert_present _ _ room); [|by rewrite Hr].
      by apply (capacity_ok_same_rooms st).
    + by injection H as <- _ _.
  - destruct (relay_message_shape room st pid message now t0 t1) as [_ Hr].
    rewrite H0 in Hr. simpl in *.
    apply (capacity_ok_insert_present _ _ room); [|by rewrite Hr].
    by apply (capacity_ok_same_rooms st).
  - destruct (relay_message_shape room st pid message now t0 t1) as [_ Hr].
    rewrite H in Hr. by apply (capacity_ok_same_rooms st).
  - pose proof (ws_finally_capacity st rc pid now Hok) as Hf. by rewrite H in Hf.
  - pose proof (close_room_capacity st c Hok) as Hc. by rewrite H in Hc.
  - pose proof (cleanup_sweep_capacity st now Hok) as Hs. by rewrite H in Hs.
Qed.

Lemma reachable_capacity st : reachable st → capacity_ok st.
Proof.
  unfold reachable. intros Hr.
  apply (rtc_ind_r (R := step) (λ s, capacity_ok s) RoomManager_init);
    [|  |exact Hr].
  - unfold capacity_ok. simpl. rewrite map_size_empty. done.
  - intros st1 st2 _ Hstep IH. by apply (step_capacity st1).
Qed.

(** X22. The registry never holds more than [MAX_ROOMS] rooms, in any state
    the server reaches: [create_room] is the only code that adds a slot, and
    the host branch of the endpoint moves the slot it got rather than adding
    one. When the registry is full, [create_room] raises 503 whatever the
    random source gives, and a host that asks for an unknown code is not
    admitted: the handler fails with that 503, sends nothing and leaves the
    rooms as the lookup left them. *)
Theorem registry_capacity (st : RoomManager) (w : WebSocket)
    (ip rc : string) (pid : option string) (tape : list nat)
    (token : string) (clk : admit_clock) :
  reachable st →
  (Z.of_nat (size (rooms st)) ≤ Config.MAX_ROOMS)%Z
  ∧ (Z.of_nat (size (rooms st)) = Config.MAX_ROOMS →
     create_room st tape (t_created clk) (t_activity clk)
     = HTTPException 503 "Server at capacity"
     ∧ (rooms st !! upper rc = None →
        ws_admit st w ip rc pid "true" tape token clk = (st, [], Failed 503))).
Proof.
  intros Hr. split; [apply (reachable_capacity st Hr)|].
  intros Hfull.
  assert (Hcreate : create_room st tape (t_created clk) (t_activity clk)
                    = HTTPException 503 "Server at capacity").
  { unfold create_room.
    destruct (Z.geb_spec (Z.of_nat (size (rooms st))) Config.MAX_ROOMS);
      [done|lia]. }
  split; [done|]. intros Hfree.
  unfold ws_admit, get_room. rewrite upper_idemp, Hfree.
  change (String.eqb (lower "true") "true") with true. cbv iota.
  by rewrite Hcreate.
Qed.

Lemma registry_capacity_witness :
  (Z.of_nat (size (rooms Run.two_hosts)) ≤ Config.MAX_ROOMS)%Z.
Proof.
  exact (proj1 (registry_capacity Run.two_hosts 0 "" "" None [] "" Run.clk0
                  reachable_two_hosts)).
Defined.

(** ** REST lookup *)

(** X6. [GET /api/rooms/{room_code}] in any state the server reaches
    either answers 404, and then no room is left under the upper-cased code,
    or describes the live room under that code without changing the
    registry: the code it reports is the requested one in upper case, the
    peer count is at most [MAX_PEERS_PER_ROOM], and a reported host means at
    least one peer. *)
Theorem rest_get_room_info (st : RoomManager) (rc : string) (now : Q) :
  reachable st →
  match rest_get_room st rc now with
  | (Return info, st') =>
      st' = st
      ∧ info_code info = upper rc
      ∧ (info_peer_count info ≤ Config.MAX_PEERS_PER_ROOM)%nat
      ∧ (info_has_host info = true → (1 ≤ info_peer_count info)%nat)
      ∧ ∃ room, rooms st !! upper rc = Some room
                ∧ is_expired now room = false
                ∧ info_created_at info = created_at room
  | (HTTPException status detail, st') =>
      status = 404%Z ∧ detail = "Room not found"
      ∧ rooms st' = delete (upper rc) (rooms st)
  | (Starved, _) => False
  end.
Proof.
  intros Hr. pose proof (reachable_slots st Hr) as Hslots.
  pose proof (reachable_ok st Hr) as Hok.
  unfold rest_get_room, get_room. rewrite upper_idemp.
  destruct (rooms st !! upper rc) as [room|] eqn:Hroom.
  - destruct (is_expired now room) eqn:Hexp; [done|].
    destruct (Hslots _ _ Hroom) as [Hcode _].
    split; [done|]. split; [done|]. split; [apply (Hok _ _ Hroom)|].
    split; [|by exists room].
    cbn [info_has_host info_peer_count]. unfold has_host, peer_count.
    destruct (peers room); [done|]. simpl. lia.
  - split; [done|]. split; [done|]. by rewrite delete_id.
Qed.

Lemma rest_get_room_info_witness :
  (rest_get_room Run.two_hosts "ab23cd" 5).2 = Run.two_hosts.
Proof.
  pose proof (rest_get_room_info Run.two_hosts "ab23cd" 5 reachable_two_hosts)
    as Hinfo.
  assert (Hfound : ∃ info, (rest_get_room Run.two_hosts "ab23cd" 5).1
                           = Return info).
  { eexists. vm_compute. reflexivity. }
  destruct Hfound as [info Hfound].
  destruct (rest_get_room Run.two_hosts "ab23cd" 5) as [[info'| |] st'];
    try discriminate Hfound.
  exact (proj1 Hinfo).
Defined.

(** ** Entries of the address table *)

Lemma dd_read_known (k a : string) (d : gmap string Z) :
  is_Some (d !! a) → is_Some ((dd_read k d).2 !! a).
Proof.
  unfold dd_read. destruct (d !! k); [done|]. simpl. intros Ha.
  apply lookup_insert_is_Some'. by right.
Qed.

Lemma dd_read_stores (k : string) (d : gmap string Z) :
  is_Some ((dd_read k d).2 !! k).
Proof.
  unfold dd_read. destruct (d !! k) eqn:Hk; simpl.
  - by rewrite Hk.
  - rewrite lookup_insert_eq. done.
Qed.

Lemma known_same_ips a st st' :
  ip_connections st' = ip_connections st → known a st → known a st'.
Proof. unfold known. by intros ->. Qed.

Lemma create_room_known a st tape t1 t2 c st' :
  create_room st tape t1 t2 = Return (c, st') → known a st → known a st'.
Proof. intros Hc. by apply create_room_rooms in Hc as (_ & _ & ->). Qed.

Lemma close_room_known a st c : known a st → known a (close_room st c).1.
Proof. unfold close_room. by destruct (rooms st !! upper c). Qed.

Lemma ws_join_known a st w ip rc pid host token clk key room :
  known a st → known a (ws_join st w ip rc pid host token clk key room).1.1.
Proof.
  unfold known, ws_join. intros Ha.
  destruct (Config.MAX_PEERS_PER_ROOM <=? peer_count room)%nat; [done|].
  unfold add_peer.
  match goal with
  | |- context [dd_read ?k ?d] =>
      pose proof (dd_read_known k a d Ha) as Hd; destruct (dd_read k d) as [n ips]
  end.
  cbn [fst snd ip_connections with_rooms] in *.
  apply lookup_insert_is_Some'. by right.
Qed.

Lemma ws_admit_known a st w ip rc pid host tape token clk :
  known a st → known a (ws_admit st w ip rc pid host tape token clk).1.1.
Proof.
  intros Ha. unfold ws_admit.
  destruct (get_room_counters st (upper rc) (t_lookup clk)) as [Hips _].
  destruct (get_room st (upper rc) (t_lookup clk)) as [found st1].
  cbn [snd] in Hips. pose proof (known_same_ips a st st1 Hips Ha) as Ha1.
  destruct found as [room|]; [by apply ws_join_known|].
  destruct (String.eqb (lower host) "true"); [|done].
  destruct (create_room st1 tape (t_created clk) (t_activity clk))
    as [[c st2]| |] eqn:Hc; [|done|done].
  pose proof (create_room_known a _ _ _ _ _ _ Hc Ha1) as Ha2.
  destruct (rooms st2 !! upper rc) as [old|] eqn:Hold.
  - rewrite Hold. by apply ws_join_known.
  - destruct (rooms st2 !! c) as [fresh|]; [|done].
    simpl. rewrite lookup_insert_eq. by apply ws_join_known.
Qed.

Lemma remove_peer_known a st key room pid :
  known a st → known a (remove_peer st key room pid).1.
Proof.
  intros Ha. unfold remove_peer.
  destruct (PyDict.get pid (peers room)) as [peer|]; [|done].
  pose proof (dd_read_known (ip_address peer) a (ip_connections st) Ha) as Hd.
  destruct (dd_read (ip_address peer) (ip_connections st)) as [n ips].
  cbn [snd] in Hd.
  match goal with
  | |- context [with_rooms (<[key := ?r]> _) ?s] =>
      assert (Ha1 : known a (with_rooms (<[key := r]> (rooms st)) s))
  end.
  { unfold known. cbn [ip_connections with_rooms with_ip_connections].
    apply lookup_insert_is_Some'. by right. }
  destruct (peer_count _ =? 0)%nat; [|done].
  match goal with
  | |- context [close_room ?s ?c] =>
      pose proof (close_room_known a s c Ha1); destruct (close_room s c)
  end.
  done.
Qed.

Lemma ws_finally_known a st rc pid now :
  known a st → known a (ws_finally st rc pid now).1.
Proof.
  intros Ha. unfold ws_finally.
  destruct (get_room_counters st rc now) as [Hips _].
  destruct (get_room st rc now) as [[room|] st1]; cbn [snd] in Hips.
  - apply remove_peer_known. by apply (known_same_ips a st).
  - by apply (known_same_ips a st).
Qed.

Lemma cleanup_sweep_known a st now :
  known a st → known a (cleanup_sweep st now).1.
Proof.
  unfold cleanup_sweep.
  generalize (map fst (filter (λ kv, is_expired now kv.2 = true)
                         (map_to_list (rooms st)))).
  intros expired. generalize (@nil frame). revert st.
  induction expired as [|c expired IH]; intros st fs Ha; [done|].
  simpl. pose proof (close_room_known a st c Ha) as Ha1.
  destruct (close_room st c) as [st1 fs1]. by apply IH.
Qed.

Lemma step_known a st st' : step st st' → known a st → known a st'.
Proof.
  intros Hstep Ha. destruct Hstep.
  - by eapply create_room_known.
  - destruct (get_room_counters st c now) as [Hips _]. rewrite H in Hips.
    by apply (known_same_ips a st).
  - unfold check_ip_limit in H.
    pose proof (dd_read_known ip a (ip_connections st) Ha) as Hd.
    destruct (dd_read ip (ip_connections st)) as [n d].
    by injection H as _ <-.
  - pose proof (ws_admit_known a st w ip rc pid host tape token clk Ha) as Hk.
    by rewrite H in Hk.
  - unfold ws_receive in H.
    destruct (rooms st !! key) as [room|]; [|done].
    destruct (PyDict.get pid (peers room)) as [peer|]; [|done].
    destruct (check_rate_limit t_limit peer) as [[] peer'].
    + match type of H with
      | context [relay_message ?r ?s ?p ?m ?a ?b ?c] =>
          pose proof (relay_message_ips r s p m a b c) as Hi;
          destruct (relay_message r s p m a b c) as [[room2 st2] sent]
      end.
      injection H as <- _ _. simpl in Hi.
      by apply (known_same_ips a st).
    + by injection H as <- _ _.
  - pose proof (relay_message_ips room st pid message now t0 t1) as Hi.
    rewrite H0 in Hi. by apply (known_same_ips a st).
  - pose proof (relay_message_ips room st pid message now t0 t1) as Hi.
    rewrite H in Hi. by apply (known_same_ips a st).
  - pose proof (ws_finally_known a st rc pid now Ha) as Hf. by rewrite H in Hf.
  - pose proof (close_room_known a st c Ha) as Hc. by rewrite H in Hc.
  - pose proof (cleanup_sweep_known a st now Ha) as Hs. by rewrite H in Hs.
Qed.

(** X23. The address table only grows. The limit check of a connection
    attempt reads [ip_connections[client_ip]], which stores an entry for the
    address even when the attempt is then refused; and nothing the server
    does afterwards removes an entry, whatever happens to the rooms and
    peers: counters go down to zero but stay in the table. *)
Theorem address_entries_persist (st st' : RoomManager) (ip : string) :
  rtc step (check_ip_limit st ip).2 st' →
  known ip (check_ip_limit st ip).2
  ∧ known ip st'
  ∧ ∀ a, known a st → known a st'.
Proof.
  intros Hrun.
  assert (Hkeep : ∀ a s s', rtc step s s' → known a s → known a s').
  { intros a s s' Hs. induction Hs as [|s1 s2 s3 Hstep _ IH]; [done|].
    intros Ha. apply IH. by apply (step_known a s1). }
  assert (Hnow : known ip (check_ip_limit st ip).2).
  { unfold known, check_ip_limit.
    pose proof (dd_read_stores ip (ip_connections st)) as Hd.
    by destruct (dd_read ip (ip_connections st)). }
  split; [done|]. split; [by apply (Hkeep ip _ _ Hrun)|].
  intros a Ha. apply (Hkeep a _ _ Hrun).
  unfold known, check_ip_limit in *.
  pose proof (dd_read_known ip a (ip_connections st) Ha) as Hd.
  by destruct (dd_read ip (ip_connections st)).
Qed.

Lemma address_entries_persist_witness :
  known "10.0.0.1" Run.cleaned.
Proof.
  assert (Hrun : rtc step (check_ip_limit RoomManager_init "10.0.0.1").2
                   Run.cleaned).
  { eapply rtc_l.
    { eapply (step_admit _ 1%nat "10.0.0.1" "ab23cd" (Some "alice") "true"
                Run.tape "tok" Run.clk0). vm_compute; reflexivity. }
    eapply rtc_l.
    { eapply (step_sweep _ Run.late). vm_compute; reflexivity. }
    eapply rtc_l; [|apply rtc_refl].
    eapply (step_finally _ "AB23CD" "alice" Run.late). vm_compute; reflexivity. }
  exact (proj1 (proj2 (address_entries_persist RoomManager_init Run.cleaned
                         "10.0.0.1" Hrun))).
Defined.

(** ** Upload: what the response reports *)

(** X24. The size limit of [upload_file] looks at the declared size only.
    An upload whose declared size is absent, 0 or at most [MAX_FILE_SIZE] is
    stored whatever its content, on either path, and the response reports
    what was read, not what was declared: [size] is the length of the
    content, [total_bytes_relayed] grows by it, [compressedSize] is null
    exactly on the raw path, [expiresAt] is the clock plus
    [RELAY_FILE_TTL], and [downloadUrl] ends in the file id, under which
    the metadata is filed. *)
Theorem upload_reports_measured_size `{Lz4Frame} `{XxHash} (st : FileRelay)
    (file : UploadFile) (room_code : option string) (compress : bool)
    (file_id : string) (t1 t2 : Q) :
  declared_over (declared_size file) Config.MAX_FILE_SIZE = false →
  ∃ m st',
    upload_file st file room_code compress file_id t1 t2 = Return (JObj m, st')
    ∧ PyDict.get "fileId" m = Some (JStr file_id)
    ∧ PyDict.get "size" m
      = Some (JNum (inject_Z (Z.of_nat (List.length (content file)))))
    ∧ (PyDict.get "compressedSize" m = Some JNull ↔
       compress && declared_over (declared_size file) Config.MIN_COMPRESS_SIZE
       = false)
    ∧ PyDict.get "expiresAt" m = Some (JNum (t1 + Config.RELAY_FILE_TTL))
    ∧ PyDict.get "downloadUrl" m
      = Some (JStr (String.append "/api/relay/download/" file_id))
    ∧ total_bytes_relayed st'
      = (total_bytes_relayed st + Z.of_nat (List.length (content file)))%Z
    ∧ (FileMetadata.id <$> files st' !! file_id) = Some file_id.
Proof.
  intros Hsize. unfold upload_file. rewrite Hsize. unfold store_file.
  pose proof chunk_size_pos as Hn. revert Hn. generalize chunk_size.
  intros n Hn.
  pose proof (read_chunks_concat_at n (content file) Hn) as Hread.
  destruct (compress && declared_over (declared_size file)
                          Config.MIN_COMPRESS_SIZE) eqn:Hpath.
  - rewrite ingest_compressed_frame, Hread. cbv beta iota zeta.
    eexists _, _. split; [reflexivity|].
    cbn [FileMetadata.id FileMetadata.name FileMetadata.size
         FileMetadata.compressed FileMetadata.original_size
         FileMetadata.checksum FileMetadata.expires_at jopt files
         total_bytes_relayed].
    rewrite lookup_insert_eq. cbn. repeat split; try done.
  - unfold ingest_raw. rewrite foldl_raw_step, Hread. cbv beta iota zeta.
    eexists _, _. split; [reflexivity|].
    cbn [FileMetadata.id FileMetadata.name FileMetadata.size
         FileMetadata.compressed FileMetadata.original_size
         FileMetadata.checksum FileMetadata.expires_at jopt files
         total_bytes_relayed].
    rewrite lookup_insert_eq. cbn. repeat split; try done.
Qed.

Lemma upload_reports_measured_size_witness :
  ∃ m st',
    @upload_file Toy.codec Toy.hash Toy.empty_relay Toy.declared None true
      "h3Zk-Q_a" 0 0 = Return (JObj m, st')
    ∧ PyDict.get "size" m = Some (JNum (inject_Z 3)).
Proof.
  destruct (@upload_reports_measured_size Toy.codec Toy.hash Toy.empty_relay
              Toy.declared None true "h3Zk-Q_a" 0 0 eq_refl)
    as (m & st' & Hup & _ & Hsz & _).
  exists m, st'. exact (conj Hup Hsz).
Defined.
